(** * Epistemic-inertia framework: math utilities and the researcher API

    A shallow embedding of [math_utils/__init__.py] ([symmetrize],
    [ensure_spd]) and of [epistemic_inertia.py] ([get_preset_config],
    [create_agents], [compute_epistemic_inertia], [compute_polarization],
    [compute_social_influence_matrix]).

    The Python code is written once against numpy's float arrays.  Here it is
    written once against an interface of scalar operations ([Scalar]) and read
    at three number models:
    - the real numbers [R] (exact arithmetic), for the statements the
      specification makes about "real matrices";
    - IEEE-754 binary64 as [spec_float] (correctly rounded, with signed
      zeros, infinities and NaN), for what happens on NaN and Inf entries
      and under rounding and overflow;
    - the extended reals (exact arithmetic with [inf], [-inf] and [nan]), for
      [np.exp] of infinite arguments.

    Python exceptions are values of [exn]; a function that may raise returns
    a [result]. *)

From Stdlib Require Import List ZArith Bool Lia.
From Stdlib Require Import Reals Lra.
From Stdlib Require SpecFloat.
Import ListNotations.

Set Implicit Arguments.

(* ================================================================= *)
(** ** Exceptions *)

Inductive exn : Type :=
| ValueError          (* numpy: shapes cannot be broadcast; invalid seed *)
| IndexError          (* list index out of range *)
| FloatingPointError  (* the numeric-domain error of numpy's errstate 'raise' *)
| ZeroDivisionError.

Inductive result (A : Type) : Type :=
| Ok (a : A)
| Raise (e : exn).

Arguments Ok {A} a.
Arguments Raise {A} e.

Definition bind {A B} (c : result A) (k : A -> result B) : result B :=
  match c with
  | Ok a => k a
  | Raise e => Raise e
  end.

Notation "x <- c ;; k" := (bind c (fun x => k))
  (at level 61, c at next level, right associativity).

(* ================================================================= *)
(** ** Scalars: the operations numpy applies to array elements *)

Class Scalar (F : Type) : Type := {
  f0    : F;
  f1    : F;
  fadd  : F -> F -> F;
  fsub  : F -> F -> F;
  fmul  : F -> F -> F;
  fdiv  : F -> F -> F;
  fneg  : F -> F;
  fsqrt : F -> F;
  fofZ  : Z -> F;            (* int -> float conversion *)
  fltb  : F -> F -> bool     (* the comparison [<] *)
}.

(** [np.exp]. *)
Class Exponential (F : Type) : Type := {
  fexp : F -> F
}.

(** A decimal literal [p/q] of the source ([0.5] is [ratio 1 2], [1e-6] is
    [ratio 1 1000000]): with correctly rounded division of two exactly
    represented integers this is the float nearest to the decimal. *)
Definition ratio {F} `{Scalar F} (p q : Z) : F := fdiv (fofZ p) (fofZ q).

(** *** The reals *)

#[export] Instance RScalar : Scalar R := {|
  f0 := 0%R;
  f1 := 1%R;
  fadd := Rplus;
  fsub := Rminus;
  fmul := Rmult;
  fdiv := Rdiv;
  fneg := Ropp;
  fsqrt := sqrt;
  fofZ := IZR;
  fltb := fun x y => if Rlt_dec x y then true else false
|}.

#[export] Instance RExponential : Exponential R := {| fexp := exp |}.

(** *** IEEE-754 binary64 *)

Module Float64.
Import SpecFloat.

Definition float64 : Type := spec_float.

Definition prec : Z := 53.
Definition emax : Z := 1024.

Definition nan : float64 := S754_nan.
Definition inf : float64 := S754_infinity false.

Definition of_Z (z : Z) : float64 := binary_normalize prec emax z 0 false.

Definition is_nan (x : float64) : bool :=
  match x with S754_nan => true | _ => false end.

Definition is_finite (x : float64) : bool :=
  match x with
  | S754_zero _ | S754_finite _ _ _ => true
  | S754_infinity _ | S754_nan => false
  end.

#[global] Instance Float64Scalar : Scalar float64 := {|
  f0 := S754_zero false;
  f1 := of_Z 1;
  fadd := SFadd prec emax;
  fsub := SFsub prec emax;
  fmul := SFmul prec emax;
  fdiv := SFdiv prec emax;
  fneg := SFopp;
  fsqrt := SFsqrt prec emax;
  fofZ := of_Z;
  fltb := SFltb
|}.
End Float64.

(** *** Extended reals: the IEEE special values over exact arithmetic

    [SpecFloat] has no exponential.  Where [np.exp] meets an infinite
    argument the arrays are read over the extended reals: a finite value
    is a real number, computed exactly, and [inf], [-inf] and [nan] follow
    the IEEE-754 rules numpy applies to them (numpy warns, it does not
    raise).  Signed zeros are not distinguished: a nonzero number divided
    by zero takes the sign of the numerator. *)

Module Extended.
Local Open Scope R_scope.

Inductive ext : Type :=
| Fin (r : R)
| PInf
| NInf
| NaN.

Definition is_neg (r : R) : bool := if Rlt_dec r 0 then true else false.
Definition is_zero (r : R) : bool := if Req_dec_T r 0 then true else false.

Definition signed_inf (negative : bool) : ext := if negative then NInf else PInf.

Definition opp (x : ext) : ext :=
  match x with
  | Fin a => Fin (- a)
  | PInf => NInf
  | NInf => PInf
  | NaN => NaN
  end.

Definition add (x y : ext) : ext :=
  match x, y with
  | NaN, _ | _, NaN => NaN
  | PInf, NInf | NInf, PInf => NaN
  | PInf, _ | _, PInf => PInf
  | NInf, _ | _, NInf => NInf
  | Fin a, Fin b => Fin (a + b)
  end.

Definition sub (x y : ext) : ext := add x (opp y).

Definition mul (x y : ext) : ext :=
  match x, y with
  | NaN, _ | _, NaN => NaN
  | Fin a, Fin b => Fin (a * b)
  | Fin a, PInf | PInf, Fin a =>
      if is_zero a then NaN else signed_inf (is_neg a)
  | Fin a, NInf | NInf, Fin a =>
      if is_zero a then NaN else signed_inf (negb (is_neg a))
  | PInf, PInf | NInf, NInf => PInf
  | PInf, NInf | NInf, PInf => NInf
  end.

Definition div (x y : ext) : ext :=
  match x, y with
  | NaN, _ | _, NaN => NaN
  | PInf, PInf | PInf, NInf | NInf, PInf | NInf, NInf => NaN
  | Fin _, PInf | Fin _, NInf => Fin 0
  | PInf, Fin b => signed_inf (is_neg b)
  | NInf, Fin b => signed_inf (negb (is_neg b))
  | Fin a, Fin b =>
      if is_zero b
      then (if is_zero a then NaN else signed_inf (is_neg a))
      else Fin (a / b)
  end.

Definition ext_sqrt (x : ext) : ext :=
  match x with
  | NaN | NInf => NaN
  | PInf => PInf
  | Fin a => if is_neg a then NaN else Fin (sqrt a)
  end.

(** [np.exp]: [exp(-inf) = 0] and [exp(inf) = inf]. *)
Definition ext_exp (x : ext) : ext :=
  match x with
  | NaN => NaN
  | PInf => PInf
  | NInf => Fin 0
  | Fin a => Fin (exp a)
  end.

Definition ltb (x y : ext) : bool :=
  match x, y with
  | NaN, _ | _, NaN => false
  | Fin a, Fin b => if Rlt_dec a b then true else false
  | _, NInf | PInf, _ => false
  | NInf, _ | _, PInf => true
  end.

#[export] Instance ExtScalar : Scalar ext := {|
  f0 := Fin 0;
  f1 := Fin 1;
  fadd := add;
  fsub := sub;
  fmul := mul;
  fdiv := div;
  fneg := opp;
  fsqrt := ext_sqrt;
  fofZ := fun z => Fin (IZR z);
  fltb := ltb
|}.

#[export] Instance ExtExponential : Exponential ext := {| fexp := ext_exp |}.
End Extended.

(* ================================================================= *)
(** ** numpy: two-dimensional arrays as lists of rows

    A 2-D array is the list of its rows, all of one length; the array
    without rows is the 0-by-0 array.  Sums are accumulated from the left:
    over the reals the order does not matter, over doubles numpy's
    pairwise order can differ in the last bits. *)

Module np.
Section Arrays.
Context {F : Type} `{Scalar F}.

Definition vector : Type := list F.
Definition ndarray : Type := list (list F).

Definition nrows (M : ndarray) : nat := length M.

Definition ncols (M : ndarray) : nat :=
  match M with
  | [] => 0
  | r :: _ => length r
  end.

(** [M[i, j]] for indices inside the array. *)
Definition item (M : ndarray) (i j : nat) : F := nth j (nth i M []) f0.

Definition tabulate (r c : nat) (f : nat -> nat -> F) : ndarray :=
  map (fun i => map (fun j => f i j) (seq 0 c)) (seq 0 r).

(** [np.swapaxes(M, -1, -2)] of a 2-D array. *)
Definition swapaxes (M : ndarray) : ndarray :=
  tabulate (ncols M) (nrows M) (fun i j => item M j i).

(** Broadcasting of one dimension: equal lengths, or one of them is 1. *)
Definition broadcast_dim (a b : nat) : result nat :=
  if Nat.eqb a b then Ok a
  else if Nat.eqb a 1 then Ok b
  else if Nat.eqb b 1 then Ok a
  else Raise ValueError.

Definition bidx (dim i : nat) : nat := if Nat.eqb dim 1 then 0 else i.

(** An elementwise binary operation [A op B] with broadcasting. *)
Definition zip_with (op : F -> F -> F) (A B : ndarray) : result ndarray :=
  r <- broadcast_dim (nrows A) (nrows B) ;;
  c <- broadcast_dim (ncols A) (ncols B) ;;
  Ok (tabulate r c (fun i j =>
        op (item A (bidx (nrows A) i) (bidx (ncols A) j))
           (item B (bidx (nrows B) i) (bidx (ncols B) j)))).

Definition add : ndarray -> ndarray -> result ndarray := zip_with fadd.
Definition divide : ndarray -> ndarray -> result ndarray := zip_with fdiv.

(** [s * M], [M / s], [-M] for a Python scalar [s]. *)
Definition scale (s : F) (M : ndarray) : ndarray := map (map (fmul s)) M.
Definition div_scalar (M : ndarray) (s : F) : ndarray :=
  map (map (fun x => fdiv x s)) M.
Definition negative (M : ndarray) : ndarray := map (map fneg) M.

(** [np.eye(K)]. *)
Definition eye (K : nat) : ndarray :=
  tabulate K K (fun i j => if Nat.eqb i j then f1 else f0).

(** [np.zeros(n)]. *)
Definition zeros (n : nat) : vector := repeat f0 n.

(** [np.sum] of a 1-D array, accumulated from the left. *)
Definition sum (v : vector) : F := fold_left fadd v f0.

(** [M.sum(axis=1, keepdims=True)]: a column of row sums. *)
Definition sum_axis1_keepdims (M : ndarray) : ndarray :=
  map (fun row => [sum row]) M.

(** [np.trace(M)]: the sum of [M[d, d]] along the main diagonal. *)
Definition trace (M : ndarray) : F :=
  sum (map (fun d => item M d d) (seq 0 (Nat.min (nrows M) (ncols M)))).

(** [np.mean] of a non-empty 1-D array. *)
Definition mean (v : vector) : F :=
  fdiv (sum v) (fofZ (Z.of_nat (length v))).

(** [np.var] (population variance, [ddof = 0]). *)
Definition var (v : vector) : F :=
  let m := mean v in
  mean (map (fun x => fmul (fsub x m) (fsub x m)) v).

(** [np.linalg.norm] of a 1-D array: the Euclidean norm. *)
Definition norm (v : vector) : F :=
  fsqrt (sum (map (fun x => fmul x x) v)).

(** The slice [M[a:b, a:b]]; Python clips a slice to the array. *)
Definition slice {A} (a b : nat) (l : list A) : list A :=
  firstn (b - a) (skipn a l).

Definition block (M : ndarray) (a b : nat) : ndarray :=
  map (slice a b) (slice a b M).

(** [v[i] = x] on a 1-D array (the loops below stay inside the array). *)
Fixpoint setitem (v : vector) (i : nat) (x : F) : vector :=
  match v, i with
  | [], _ => []
  | _ :: t, O => x :: t
  | h :: t, S i' => h :: setitem t i' x
  end.

(** [u - v] for two rows of one 2-D array (equal lengths). *)
Definition subtract (u v : vector) : vector :=
  map (fun k => fsub (nth k u f0) (nth k v f0)) (seq 0 (length u)).

(** [np.array(rows)] of a list of 1-D arrays: rows of unequal lengths
    are refused. *)
Definition array (rows : list vector) : result ndarray :=
  if forallb (fun r => Nat.eqb (length r) (ncols rows)) rows
  then Ok rows
  else Raise ValueError.
End Arrays.

Section Transcendental.
Context {F : Type} `{Exponential F}.

(** [np.exp(M)], elementwise. *)
Definition exp (M : list (list F)) : list (list F) := map (map fexp) M.
End Transcendental.
End np.

(* ================================================================= *)
(** ** math_utils *)

Module math_utils.
Section MathUtils.
Context {F : Type} `{Scalar F}.

(** [0.5 * (M + np.swapaxes(M, -1, -2))] *)
Definition symmetrize (M : np.ndarray) : result np.ndarray :=
  S <- np.add M (np.swapaxes M) ;;
  Ok (np.scale (ratio 1 2) S).

(** [Sigma = symmetrize(Sigma); K = Sigma.shape[-1];
     Sigma = Sigma + eps * np.eye(K); return Sigma] *)
Definition ensure_spd (Sigma : np.ndarray) (eps : F) : result np.ndarray :=
  Sigma1 <- symmetrize Sigma ;;
  let K := np.ncols Sigma1 in
  np.add Sigma1 (np.scale eps (np.eye K)).

(** The default [eps = 1e-6]. *)
Definition default_eps : F := ratio 1 1000000.
End MathUtils.
End math_utils.

(* ================================================================= *)
(** ** Classes of the repository that [epistemic_inertia.py] imports *)

(** [np.random.Generator].  A generator built from an integer seed is a
    function of that seed; one built from [None] takes fresh entropy from
    the operating system. *)
Inductive Generator : Type :=
| Seeded (seed : Z)
| FromEntropy (e : Z).

(** Modelled from the spec: [AgentConfig] ([config.py] is not under src/);
    the keyword arguments [SociologyConfig.to_agent_config] passes. *)
Module AgentConfig.
Record t (F : Type) : Type := mk {
  K : Z;
  mu_scale : F;
  sigma_scale : F;
  lr_mu_q : F;
  lr_sigma_q : F
}.
Arguments mk {F}.
Arguments K {F}.
Arguments mu_scale {F}.
Arguments sigma_scale {F}.
Arguments lr_mu_q {F}.
Arguments lr_sigma_q {F}.

(** [cfg.sigma_scale = x] and [cfg.mu_scale = x]. *)
Definition set_sigma_scale {F} (cfg : t F) (x : F) : t F :=
  mk (K cfg) (mu_scale cfg) x (lr_mu_q cfg) (lr_sigma_q cfg).
Definition set_mu_scale {F} (cfg : t F) (x : F) : t F :=
  mk (K cfg) x (sigma_scale cfg) (lr_mu_q cfg) (lr_sigma_q cfg).
End AgentConfig.

(** Modelled from the spec: [SystemConfig] ([config.py] is not under src/);
    the keyword arguments [SociologyConfig.to_system_config] passes. *)
Module SystemConfig.
Record t (F : Type) : Type := mk {
  lambda_self : F;
  lambda_belief_align : F;
  lambda_prior_align : F;
  kappa_beta : F
}.
Arguments mk {F}.
Arguments lambda_self {F}.
Arguments lambda_belief_align {F}.
Arguments lambda_prior_align {F}.
Arguments kappa_beta {F}.
End SystemConfig.

(** The belief mean [mu_q]: a vector of length K ([ndim = 1]), or a field
    of such vectors over the base manifold ([ndim > 1]), given by its rows
    (the leading axes flattened). *)
Inductive belief_array (F : Type) : Type :=
| Vec (v : list F)
| Field (rows : list (list F)).

Arguments Vec {F} v.
Arguments Field {F} rows.

(** Modelled from the spec: the [Agent] class ([agent/agents.py] is not under
    src/).  Section 3: an agent has an integer identity and a belief mean
    [mu_q] of belief dimension K; section 6: it is built from a
    configuration and a random source.  [config] is the state of the
    configuration object when the constructor ran. *)
Module Agent.
Record t (F : Type) : Type := mk {
  agent_id : Z;
  config : AgentConfig.t F;
  rng : Generator;
  K : nat;
  mu_q : belief_array F
}.
Arguments mk {F}.
Arguments agent_id {F}.
Arguments config {F}.
Arguments rng {F}.
Arguments K {F}.
Arguments mu_q {F}.

(** [Agent(agent_id=.., config=.., rng=..)]; [init_mu_q] is the initial
    belief the constructor draws from [rng]. *)
Definition init {F} (init_mu_q : AgentConfig.t F -> Generator -> belief_array F)
    (agent_id : Z) (config : AgentConfig.t F) (rng : Generator) : t F :=
  mk agent_id config rng (Z.to_nat (AgentConfig.K config)) (init_mu_q config rng).
End Agent.

(** Modelled from the spec: [MultiAgentSystem] ([agent/system.py] is not
    under src/).  Section 3: it owns the ordered collection of agents and a
    configuration bundle. *)
Module MultiAgentSystem.
Record t (F : Type) : Type := mk {
  agents : list (Agent.t F);
  config : SystemConfig.t F
}.
Arguments mk {F}.
Arguments agents {F}.
Arguments config {F}.

Definition n_agents {F} (system : t F) : nat := length (agents system).
End MultiAgentSystem.

(** The [mode] argument of [compute_kl_matrix]. *)
Inductive kl_mode : Type := mode_belief | mode_prior.

(* ================================================================= *)
(** ** epistemic_inertia *)

Module epistemic_inertia.

Inductive SociologyPresets : Type :=
| CONSENSUS
| POLARIZATION
| ECHO_CHAMBERS
| EXPERT_VS_NOVICE
| BACKFIRE
| NEUTRAL.

Definition preset_eqb (a b : SociologyPresets) : bool :=
  match a, b with
  | CONSENSUS, CONSENSUS | POLARIZATION, POLARIZATION
  | ECHO_CHAMBERS, ECHO_CHAMBERS | EXPERT_VS_NOVICE, EXPERT_VS_NOVICE
  | BACKFIRE, BACKFIRE | NEUTRAL, NEUTRAL => true
  | _, _ => false
  end.

Module SociologyConfig.
Record t (F : Type) : Type := mk {
  belief_dimensions : Z;
  initial_belief_spread : F;
  prior_strength : F;
  social_influence_strength : F;
  uncertainty_level : F;
  learning_rate : F;
  temperature : F
}.
Arguments mk {F}.
Arguments belief_dimensions {F}.
Arguments initial_belief_spread {F}.
Arguments prior_strength {F}.
Arguments social_influence_strength {F}.
Arguments uncertainty_level {F}.
Arguments learning_rate {F}.
Arguments temperature {F}.

Section Methods.
Context {F : Type} `{Scalar F}.

(** [SociologyConfig(initial_belief_spread=.., prior_strength=..,
    social_influence_strength=.., uncertainty_level=..)]: the other
    fields keep their defaults 3, 0.1 and 1.0. *)
Definition make (spread prior social uncertainty : F) : t F :=
  mk 3 spread prior social uncertainty (ratio 1 10) (ratio 1 1).

(** [SociologyConfig()] *)
Definition default : t F :=
  make (ratio 1 2) (ratio 3 10) (ratio 1 2) (ratio 3 10).

Definition to_agent_config (self : t F) : AgentConfig.t F :=
  AgentConfig.mk
    (belief_dimensions self)
    (initial_belief_spread self)
    (uncertainty_level self)
    (learning_rate self)
    (fmul (learning_rate self) (ratio 1 10)).

Definition to_system_config (self : t F) : SystemConfig.t F :=
  SystemConfig.mk
    (ratio 1 1)
    (social_influence_strength self)
    (prior_strength self)
    (temperature self).
End Methods.
End SociologyConfig.

Section API.
Context {F : Type} `{Scalar F} `{Exponential F}.

Definition get_preset_config (preset : SociologyPresets) : SociologyConfig.t F :=
  match preset with
  | CONSENSUS =>
      SociologyConfig.make (ratio 1 10) (ratio 1 10) (ratio 8 10) (ratio 2 10)
  | POLARIZATION =>
      SociologyConfig.make (ratio 1 1) (ratio 5 10) (ratio 3 10) (ratio 3 10)
  | ECHO_CHAMBERS =>
      SociologyConfig.make (ratio 8 10) (ratio 6 10) (ratio 2 10) (ratio 4 10)
  | EXPERT_VS_NOVICE =>
      SociologyConfig.make (ratio 3 10) (ratio 4 10) (ratio 5 10) (ratio 5 10)
  | BACKFIRE =>
      SociologyConfig.make (ratio 5 10) (ratio 9 10) (ratio 1 10) (ratio 1 10)
  | NEUTRAL => SociologyConfig.default
  end.

(** *** Random sources *)

(** The operating system's entropy pool: the k-th fresh value it hands
    out is [os_entropy k]. *)
Variable os_entropy : nat -> Z.

(** Commands that may raise and may draw entropy; the state counts the
    values drawn so far. *)
Definition io (A : Type) : Type := nat -> result (A * nat).

Definition io_ret {A} (a : A) : io A := fun drawn => Ok (a, drawn).

Definition io_bind {A B} (c : io A) (k : A -> io B) : io B :=
  fun drawn =>
    match c drawn with
    | Ok (a, drawn') => k a drawn'
    | Raise e => Raise e
    end.

(** [np.random.default_rng(seed)]: [None] takes fresh entropy, a
    non-negative integer is the seed, a negative one is refused. *)
Definition default_rng (seed : option Z) : io Generator :=
  fun drawn =>
    match seed with
    | None => Ok (FromEntropy (os_entropy drawn), S drawn)
    | Some s => if (s <? 0)%Z then Raise ValueError else Ok (Seeded s, drawn)
    end.

(** [seed + i if seed else None]: [None] and [0] are falsy. *)
Definition agent_seed (seed : option Z) (i : Z) : option Z :=
  match seed with
  | Some s => if (s =? 0)%Z then None else Some (s + i)%Z
  | None => None
  end.

(** [range(n)] *)
Definition range (n : Z) : list Z := map Z.of_nat (seq 0 (Z.to_nat n)).

(** [for i in items: st = body(i, st)] *)
Fixpoint for_each {S} (body : Z -> S -> io S) (items : list Z) (st : S) : io S :=
  match items with
  | [] => io_ret st
  | i :: rest => io_bind (body i st) (fun st' => for_each body rest st')
  end.

(** *** create_agents *)

(** The initial belief the missing [Agent] constructor draws. *)
Variable init_mu_q : AgentConfig.t F -> Generator -> belief_array F.

(** The loop state: the one [agent_config] object, mutated in place, and
    the list [agents]. *)
Definition loop_state : Type := (AgentConfig.t F * list (Agent.t F))%type.

Definition create_agents_body (n_agents : Z) (preset : SociologyPresets)
    (seed : option Z) (i : Z) (st : loop_state) : io loop_state :=
  let '(agent_config, agents) := st in
(* For expert_vs_novice, vary uncertainty *)
let agent_config :=
  if preset_eqb preset EXPERT_VS_NOVICE then
    if fltb (fofZ i) (fmul (fofZ n_agents) (ratio 2 10))
    then AgentConfig.set_sigma_scale agent_config (ratio 1 10)
    else AgentConfig.set_sigma_scale agent_config (ratio 5 10)
  else agent_config in
(* For polarization, create two groups *)
io_bind
  (if preset_eqb preset POLARIZATION then
     io_bind (default_rng (agent_seed seed i)) (fun agent_rng =>
       io_ret (if (i <? n_agents / 2)%Z
               then AgentConfig.set_mu_scale agent_config (ratio 5 10)
               else AgentConfig.set_mu_scale agent_config (fneg (ratio 5 10))))
   else io_ret agent_config)
  (fun agent_config =>
     io_bind (default_rng (agent_seed seed i)) (fun rng =>
       let agent := Agent.init init_mu_q i agent_config rng in
       io_ret (agent_config, agents ++ [agent]))).

Definition create_agents (n_agents : Z) (preset : SociologyPresets)
    (config : option (SociologyConfig.t F)) (seed : option Z)
    : io (list (Agent.t F)) :=
  let config :=
    match config with
    | None => get_preset_config preset
    | Some c => c
    end in
  let agent_config := SociologyConfig.to_agent_config config in
  io_bind (default_rng seed) (fun rng =>
    io_bind (for_each (create_agents_body n_agents preset seed)
                      (range n_agents) (agent_config, []))
            (fun st => io_ret (snd st))).

(** *** compute_epistemic_inertia *)

(** [l[i]] on a Python list. *)
Definition getitem {A} (l : list A) (i : nat) : result A :=
  match nth_error l i with
  | Some a => Ok a
  | None => Raise IndexError
  end.

(** [geometry.multi_agent_mass_matrix.build_mu_mass_matrix] is not under
    src/: its result on a system is taken as given. *)
Variable build_mu_mass_matrix : MultiAgentSystem.t F -> result (list (list F)).

Definition compute_epistemic_inertia (system : MultiAgentSystem.t F)
    : result (list F) :=
  M <- build_mu_mass_matrix system ;;
  let n_agents := MultiAgentSystem.n_agents system in
  agent0 <- getitem (MultiAgentSystem.agents system) 0 ;;
  let K := Agent.K agent0 in
  let inertia := np.zeros n_agents in
  Ok (fold_left
        (fun inertia i =>
           let block := np.block M (i * K) ((i + 1) * K) in
           np.setitem inertia i (fdiv (np.trace block) (fofZ (Z.of_nat K))))
        (seq 0 n_agents) inertia).

(** *** compute_polarization *)

(** [mu_q.mean(axis=tuple(range(mu_q.ndim - 1)))]: the mean over every
    axis but the last; nothing is averaged when [mu_q] is a vector. *)
Definition mean_over_leading_axes (mu_q : belief_array F) : list F :=
  match mu_q with
  | Vec v => v
  | Field rows =>
      map (fun k => np.mean (map (fun r => nth k r f0) rows))
          (seq 0 (np.ncols rows))
  end.

Definition pairwise_distances (beliefs : list (list F)) : list F :=
  let n := length beliefs in
  flat_map
    (fun i =>
       map (fun j => np.norm (np.subtract (nth i beliefs []) (nth j beliefs [])))
           (seq (i + 1) (n - (i + 1))))
    (seq 0 n).

Definition compute_polarization (system : MultiAgentSystem.t F) : result F :=
  beliefs <- np.array
               (map (fun agent => mean_over_leading_axes (Agent.mu_q agent))
                    (MultiAgentSystem.agents system)) ;;
  let distances := pairwise_distances beliefs in
  if Nat.eqb (length distances) 0 then Ok f0
  else Ok (fdiv (np.var distances)
                (fadd (np.mean distances) (ratio 1 100000000))).

(** *** compute_social_influence_matrix *)

(** [gradients.softmax_grads.compute_kl_matrix] is not under src/: its
    result on a system is taken as given. *)
Variable compute_kl_matrix :
  MultiAgentSystem.t F -> kl_mode -> result (list (list F)).

Definition compute_social_influence_matrix (system : MultiAgentSystem.t F)
    : result (list (list F)) :=
  kl_matrix <- compute_kl_matrix system mode_belief ;;
  let kappa := SystemConfig.kappa_beta (MultiAgentSystem.config system) in
(* Softmax with temperature *)
let beta := np.exp (np.div_scalar (np.negative kl_matrix) kappa) in
np.divide beta (np.sum_axis1_keepdims beta).
End API.
End epistemic_inertia.

(* ================================================================= *)
(** * Properties *)

(** ** Shapes *)

(** An [n]-by-[n] array. *)
Definition square {F} (n : nat) (M : list (list F)) : Prop :=
  length M = n /\ Forall (fun row => length row = n) M.

(** A [r]-by-[c] array. *)
Definition has_shape {F} (r c : nat) (M : list (list F)) : Prop :=
  length M = r /\ Forall (fun row => length row = c) M.

Module ArrayFacts.
Section Generic.
Context {F : Type} `{Scalar F}.

Implicit Types (M A B : list (list F)) (f g : nat -> nat -> F).

Lemma square_has_shape n M : square n M <-> has_shape n n M.
Proof. reflexivity. Qed.

Lemma map_seq_ext {X} (u v : nat -> X) a k :
  (forall i, a <= i < a + k -> u i = v i) ->
  map u (seq a k) = map v (seq a k).
Proof.
  intros E. apply map_ext_in. intros i Hi.
  apply in_seq in Hi. apply E. lia.
Qed.

Lemma nth_map_seq {X} (u : nat -> X) d a k i :
  i < k -> nth i (map u (seq a k)) d = u (a + i).
Proof.
  intros Hi.
  rewrite (nth_indep _ d (u 0)) by (rewrite length_map, length_seq; lia).
  rewrite (map_nth u (seq a k) 0 i). now rewrite seq_nth.
Qed.

Lemma list_eq_map_nth {X} (l : list X) d :
  l = map (fun i => nth i l d) (seq 0 (length l)).
Proof.
  apply (nth_ext _ _ d d).
  - now rewrite length_map, length_seq.
  - intros i Hi. now rewrite nth_map_seq.
Qed.

Lemma has_shape_tabulate r c f : has_shape r c (np.tabulate r c f).
Proof.
  unfold has_shape, np.tabulate. split.
  - now rewrite length_map, length_seq.
  - apply Forall_forall. intros row Hrow.
    apply in_map_iff in Hrow as (i & <- & _).
    now rewrite length_map, length_seq.
Qed.

Lemma item_tabulate r c f i j :
  i < r -> j < c -> np.item (np.tabulate r c f) i j = f i j.
Proof.
  intros Hi Hj. unfold np.item, np.tabulate.
  rewrite (nth_map_seq _ [] 0 Hi). simpl.
  now rewrite (nth_map_seq _ f0 0 Hj).
Qed.

Lemma tabulate_ext r c f g :
  (forall i j, i < r -> j < c -> f i j = g i j) ->
  np.tabulate r c f = np.tabulate r c g.
Proof.
  intros E. unfold np.tabulate.
  apply map_seq_ext. intros i Hi.
  apply map_seq_ext. intros j Hj. apply E; lia.
Qed.

Lemma has_shape_row r c M i :
  has_shape r c M -> i < r -> length (nth i M []) = c.
Proof.
  intros [Hr Hc] Hi. rewrite Forall_forall in Hc.
  apply Hc, nth_In. lia.
Qed.

(** An array is the table of its items. *)
Lemma has_shape_eq_tabulate r c M :
  has_shape r c M -> M = np.tabulate r c (np.item M).
Proof.
  intros HM. pose proof HM as [Hr Hc].
  unfold np.tabulate, np.item.
  rewrite (list_eq_map_nth M []) at 1. rewrite Hr.
  apply map_seq_ext. intros i Hi.
  rewrite (list_eq_map_nth (nth i M []) f0) at 1.
  rewrite (has_shape_row HM) by lia. reflexivity.
Qed.

Lemma has_shape_ext r c A B :
  has_shape r c A -> has_shape r c B ->
  (forall i j, i < r -> j < c -> np.item A i j = np.item B i j) ->
  A = B.
Proof.
  intros HA HB E.
  rewrite (has_shape_eq_tabulate HA), (has_shape_eq_tabulate HB).
  now apply tabulate_ext.
Qed.

Lemma nrows_shape r c M : has_shape r c M -> np.nrows M = r.
Proof. now intros [Hr _]. Qed.

Lemma ncols_shape r c M : has_shape r c M -> 0 < r -> np.ncols M = c.
Proof.
  intros [Hr Hc] Hpos. destruct M as [|row M]; simpl in *; [lia|].
  now inversion Hc.
Qed.

Lemma ncols_square n M : square n M -> np.ncols M = n.
Proof.
  intros HM. destruct n.
  - destruct HM as [Hr _]. now destruct M.
  - apply (ncols_shape HM). lia.
Qed.

Lemma broadcast_dim_same a : np.broadcast_dim a a = Ok a.
Proof. unfold np.broadcast_dim. now rewrite Nat.eqb_refl. Qed.

Lemma bidx_lt dim i : i < dim -> np.bidx dim i = i.
Proof.
  unfold np.bidx. intros Hi.
  destruct (Nat.eqb_spec dim 1); lia.
Qed.

(** Elementwise operations on two arrays of one shape need no
    broadcasting. *)
Lemma zip_with_same_shape op r c A B :
  has_shape r c A -> has_shape r c B -> 0 < r ->
  np.zip_with op A B =
  Ok (np.tabulate r c (fun i j => op (np.item A i j) (np.item B i j))).
Proof.
  intros HA HB Hr. unfold np.zip_with.
  rewrite (nrows_shape HA), (nrows_shape HB).
  rewrite (ncols_shape HA Hr), (ncols_shape HB Hr).
  rewrite !broadcast_dim_same. simpl. f_equal.
  apply tabulate_ext. intros i j Hi Hj.
  now rewrite !bidx_lt.
Qed.

Lemma zip_with_square op n A B :
  square n A -> square n B ->
  np.zip_with op A B =
  Ok (np.tabulate n n (fun i j => op (np.item A i j) (np.item B i j))).
Proof.
  intros HA HB. destruct n.
  - destruct HA as [HA _], HB as [HB _].
    destruct A, B; try discriminate. reflexivity.
  - apply zip_with_same_shape; auto. lia.
Qed.

Lemma swapaxes_square n M :
  square n M -> np.swapaxes M = np.tabulate n n (fun i j => np.item M j i).
Proof.
  intros HM. unfold np.swapaxes.
  now rewrite (ncols_square HM), (nrows_shape HM).
Qed.

Lemma map_map_tabulate (u : F -> F) r c f :
  map (map u) (np.tabulate r c f) = np.tabulate r c (fun i j => u (f i j)).
Proof.
  unfold np.tabulate. rewrite map_map.
  apply map_ext. intros i. now rewrite map_map.
Qed.

(** What [symmetrize] computes on a square array. *)
Lemma symmetrize_square n M :
  square n M ->
  math_utils.symmetrize M =
  Ok (np.tabulate n n (fun i j =>
        fmul (ratio 1 2) (fadd (np.item M i j) (np.item M j i)))).
Proof.
  intros HM. unfold math_utils.symmetrize, np.add.
  rewrite (zip_with_square fadd HM (n := n)).
  2:{ rewrite (swapaxes_square HM). apply has_shape_tabulate. }
  simpl. unfold np.scale. rewrite map_map_tabulate. f_equal.
  apply tabulate_ext. intros i j Hi Hj.
  rewrite (swapaxes_square HM), item_tabulate; auto.
Qed.

(** What [ensure_spd] computes on a square array. *)
Lemma ensure_spd_square n Sigma eps :
  square n Sigma ->
  math_utils.ensure_spd Sigma eps =
  Ok (np.tabulate n n (fun i j =>
        fadd (fmul (ratio 1 2) (fadd (np.item Sigma i j) (np.item Sigma j i)))
             (fmul eps (if Nat.eqb i j then f1 else f0)))).
Proof.
  intros HM. unfold math_utils.ensure_spd.
  rewrite (symmetrize_square HM). simpl.
  set (S := np.tabulate n n _).
  assert (HS : square n S) by apply has_shape_tabulate.
  rewrite (ncols_square HS). unfold np.add.
  rewrite (zip_with_square fadd HS (n := n)).
  2:{ unfold np.scale, np.eye. rewrite map_map_tabulate.
      apply has_shape_tabulate. }
  f_equal. apply tabulate_ext. intros i j Hi Hj.
  unfold S, np.scale, np.eye.
  rewrite map_map_tabulate, !item_tabulate; auto.
Qed.
End Generic.
End ArrayFacts.

(* ================================================================= *)
(** ** math_utils over the reals *)

Module MathUtilsSpec.
Import ArrayFacts.
Local Open Scope R_scope.

Definition symmetric (M : list (list R)) : Prop := np.swapaxes M = M.

Lemma symmetric_item n M i j :
  square n M -> symmetric M -> (i < n)%nat -> (j < n)%nat ->
  np.item M i j = np.item M j i.
Proof.
  intros HM Hs Hi Hj. unfold symmetric in Hs.
  rewrite <- Hs at 1. rewrite (swapaxes_square HM).
  now rewrite item_tabulate.
Qed.

Lemma symmetric_tabulate n (f : nat -> nat -> R) :
  (forall i j, (i < n)%nat -> (j < n)%nat -> f i j = f j i) ->
  symmetric (np.tabulate n n f).
Proof.
  intros Hf. unfold symmetric.
  rewrite (swapaxes_square (has_shape_tabulate n n f)).
  apply tabulate_ext. intros i j Hi Hj.
  rewrite item_tabulate; auto.
Qed.

(** C7.  For every square real matrix M, symmetrize(M) returns the matrix
    with entries (M[i,j] + M[j,i]) / 2, that is (M + M^T)/2; the result
    is symmetric, and it is M itself when M is already symmetric. *)
Theorem symmetrize_spec (n : nat) (M : list (list R)) :
  square n M ->
  exists S,
    math_utils.symmetrize M = Ok S /\
    square n S /\
    (forall i j, (i < n)%nat -> (j < n)%nat ->
       np.item S i j = (np.item M i j + np.item M j i) / 2) /\
    symmetric S /\
    (symmetric M -> S = M).
Proof.
  intros HM. eexists. split; [apply (symmetrize_square HM)|].
  split; [apply has_shape_tabulate|]. split; [|split].
  - intros i j Hi Hj. rewrite item_tabulate by assumption.
    unfold ratio. simpl. lra.
  - apply symmetric_tabulate. intros i j _ _. simpl. lra.
  - intros Hs. symmetry.
    etransitivity; [apply (has_shape_eq_tabulate HM)|].
    apply tabulate_ext. intros i j Hi Hj.
    rewrite (symmetric_item HM Hs Hj Hi). unfold ratio. simpl. lra.
Qed.

Lemma symmetrize_spec_witness :
  exists S,
    math_utils.symmetrize [[1; 2]; [4; 3]] = Ok S /\
    square 2 S /\
    (forall i j, (i < 2)%nat -> (j < 2)%nat ->
       np.item S i j =
       (np.item [[1; 2]; [4; 3]] i j + np.item [[1; 2]; [4; 3]] j i) / 2) /\
    symmetric S /\
    (symmetric [[1; 2]; [4; 3]] -> S = [[1; 2]; [4; 3]]).
Proof.
  apply (@symmetrize_spec 2 [[1; 2]; [4; 3]]).
  split; [reflexivity|]. repeat constructor.
Defined.
End MathUtilsSpec.

(* ================================================================= *)
(** ** Sums of reals *)

Module RealSums.
Local Open Scope R_scope.

(** The sum of [f i] over the indices [i] of [l]. *)
Definition Sigma (l : list nat) (f : nat -> R) : R := np.sum (map f l).

Lemma fold_left_Rplus_acc (l : list R) (a : R) :
  fold_left Rplus l a = a + fold_left Rplus l 0.
Proof.
  revert a. induction l as [|x l IH]; intros a; simpl.
  - lra.
  - rewrite (IH (a + x)), (IH (0 + x)). lra.
Qed.

Lemma sum_nil : np.sum (@nil R) = 0.
Proof. reflexivity. Qed.

Lemma sum_cons (x : R) (l : list R) : np.sum (x :: l) = x + np.sum l.
Proof.
  unfold np.sum. simpl. rewrite fold_left_Rplus_acc. lra.
Qed.

Lemma sum_app (l1 l2 : list R) : np.sum (l1 ++ l2) = np.sum l1 + np.sum l2.
Proof.
  induction l1 as [|x l1 IH]; simpl.
  - rewrite sum_nil. lra.
  - rewrite !sum_cons, IH. lra.
Qed.

Lemma sum_nonneg (l : list R) :
  Forall (fun x => 0 <= x) l -> 0 <= np.sum l.
Proof.
  induction 1 as [|x l Hx _ IH].
  - rewrite sum_nil. lra.
  - rewrite sum_cons. lra.
Qed.

Lemma sum_pos (l : list R) :
  l <> [] -> Forall (fun x => 0 < x) l -> 0 < np.sum l.
Proof.
  intros Hne Hl. destruct Hl as [|x l Hx Hl]; [congruence|].
  rewrite sum_cons.
  assert (0 <= np.sum l).
  { apply sum_nonneg. eapply Forall_impl; [|exact Hl]. simpl. intros; lra. }
  lra.
Qed.

Lemma sum_map_div (l : list R) (s : R) :
  np.sum (map (fun x => x / s) l) = np.sum l / s.
Proof.
  induction l as [|x l IH]; simpl.
  - rewrite sum_nil. unfold Rdiv. lra.
  - rewrite !sum_cons, IH. unfold Rdiv. lra.
Qed.

Lemma Sigma_nil f : Sigma [] f = 0.
Proof. reflexivity. Qed.

Lemma Sigma_cons i l f : Sigma (i :: l) f = f i + Sigma l f.
Proof. unfold Sigma. simpl. apply sum_cons. Qed.

Lemma Sigma_ext l f g :
  (forall i, In i l -> f i = g i) -> Sigma l f = Sigma l g.
Proof.
  intros E. unfold Sigma. f_equal. now apply map_ext_in.
Qed.

Lemma Sigma_plus l f g :
  Sigma l (fun i => f i + g i) = Sigma l f + Sigma l g.
Proof.
  induction l as [|i l IH].
  - rewrite !Sigma_nil. lra.
  - rewrite !Sigma_cons, IH. lra.
Qed.

Lemma Sigma_scal l c f :
  Sigma l (fun i => c * f i) = c * Sigma l f.
Proof.
  induction l as [|i l IH].
  - rewrite !Sigma_nil. lra.
  - rewrite !Sigma_cons, IH. lra.
Qed.

Lemma Sigma_zero l : Sigma l (fun _ => 0) = 0.
Proof.
  induction l as [|i l IH].
  - apply Sigma_nil.
  - rewrite Sigma_cons, IH. lra.
Qed.

(** Exchange of two finite sums. *)
Lemma Sigma_swap l m (f : nat -> nat -> R) :
  Sigma l (fun i => Sigma m (fun j => f i j)) =
  Sigma m (fun j => Sigma l (fun i => f i j)).
Proof.
  induction l as [|i l IH].
  - rewrite Sigma_nil. symmetry. apply Sigma_zero.
  - rewrite Sigma_cons, IH, <- Sigma_plus.
    apply Sigma_ext. intros j _. now rewrite Sigma_cons.
Qed.

Lemma Sigma_nonneg l f :
  (forall i, In i l -> 0 <= f i) -> 0 <= Sigma l f.
Proof.
  intros Hf. apply sum_nonneg, Forall_forall.
  intros x Hx. apply in_map_iff in Hx as (i & <- & Hi). auto.
Qed.

Lemma Sigma_pos_at l f k :
  (forall i, In i l -> 0 <= f i) -> In k l -> 0 < f k -> 0 < Sigma l f.
Proof.
  induction l as [|i l IH]; intros Hf Hk Hpos; [easy|].
  rewrite Sigma_cons.
  assert (0 <= Sigma l f) by (apply Sigma_nonneg; intros; apply Hf; now right).
  destruct Hk as [->|Hk].
  - lra.
  - assert (0 <= f i) by (apply Hf; now left).
    assert (0 < Sigma l f) by (apply IH; auto; intros; apply Hf; now right).
    lra.
Qed.

(** Summing against the Kronecker delta picks one term. *)
Lemma Sigma_delta a n i (g : nat -> R) :
  (a <= i < a + n)%nat ->
  Sigma (seq a n) (fun j => (if Nat.eqb i j then 1 else 0) * g j) = g i.
Proof.
  revert a. induction n as [|n IH]; intros a Hi; [lia|].
  simpl seq. rewrite Sigma_cons.
  destruct (Nat.eqb_spec i a) as [->|Hne].
  - rewrite (Sigma_ext _ _ (fun _ => 0)).
    + rewrite Sigma_zero. lra.
    + intros j Hj. apply in_seq in Hj.
      destruct (Nat.eqb_spec a j); [lia|lra].
  - rewrite IH by lia. lra.
Qed.
End RealSums.

(* ================================================================= *)
(** ** ensure_spd and positive definiteness *)

Module SpdSpec.
Import ArrayFacts RealSums MathUtilsSpec.
Local Open Scope R_scope.

(** Component [i] of the product [A v]. *)
Definition matvec (n : nat) (A : list (list R)) (v : list R) (i : nat) : R :=
  Sigma (seq 0 n) (fun j => np.item A i j * nth j v 0).

Definition nonzero (n : nat) (v : list R) : Prop :=
  exists k, (k < n)%nat /\ nth k v 0 <> 0.

(** [v] is an eigenvector of [A] for the eigenvalue [lam].  A real
    symmetric matrix has real eigenvalues only, each with a real
    eigenvector. *)
Definition eigenpair (n : nat) (A : list (list R)) (lam : R) (v : list R) : Prop :=
  length v = n /\ nonzero n v /\
  forall i, (i < n)%nat -> matvec n A v i = lam * nth i v 0.

(** The quadratic form [v^T A v] and the squared norm [v^T v]. *)
Definition quadratic_form (n : nat) (A : list (list R)) (v : list R) : R :=
  Sigma (seq 0 n) (fun i => nth i v 0 * matvec n A v i).

Definition norm2 (n : nat) (v : list R) : R :=
  Sigma (seq 0 n) (fun i => nth i v 0 * nth i v 0).

Definition positive_semidefinite (n : nat) (A : list (list R)) : Prop :=
  forall v, length v = n -> 0 <= quadratic_form n A v.

Lemma norm2_pos n v : nonzero n v -> 0 < norm2 n v.
Proof.
  intros (k & Hk & Hv). unfold norm2.
  apply Sigma_pos_at with (k := k).
  - intros i _. nra.
  - apply in_seq. lia.
  - nra.
Qed.

(** The quadratic form of the transpose is the quadratic form. *)
Lemma quadratic_form_transpose n (a : nat -> nat -> R) (x : nat -> R) :
  Sigma (seq 0 n) (fun i => x i * Sigma (seq 0 n) (fun j => a j i * x j)) =
  Sigma (seq 0 n) (fun i => x i * Sigma (seq 0 n) (fun j => a i j * x j)).
Proof.
  rewrite (Sigma_ext _ _
    (fun i => Sigma (seq 0 n) (fun j => x i * (a j i * x j)))).
  2:{ intros i _. now rewrite Sigma_scal. }
  rewrite Sigma_swap. apply Sigma_ext. intros j _.
  rewrite <- Sigma_scal. apply Sigma_ext. intros i _. lra.
Qed.

Lemma quadratic_form_sym_shift n (a : nat -> nat -> R) (x : nat -> R) eps :
  Sigma (seq 0 n) (fun i =>
    x i * Sigma (seq 0 n) (fun j =>
      (1 / 2 * (a i j + a j i) + eps * (if Nat.eqb i j then 1 else 0)) * x j))
  = Sigma (seq 0 n) (fun i => x i * Sigma (seq 0 n) (fun j => a i j * x j))
    + eps * Sigma (seq 0 n) (fun i => x i * x i).
Proof.
  transitivity
    (Sigma (seq 0 n) (fun i =>
       (/ 2) * (x i * Sigma (seq 0 n) (fun j => a i j * x j))
       + ((/ 2) * (x i * Sigma (seq 0 n) (fun j => a j i * x j))
          + eps * (x i * x i)))).
  - apply Sigma_ext. intros i Hi. apply in_seq in Hi.
    rewrite (Sigma_ext _ _ (fun j =>
      (/ 2) * (a i j * x j)
      + ((/ 2) * (a j i * x j)
         + eps * ((if Nat.eqb i j then 1 else 0) * x j)))).
    2:{ intros j _. lra. }
    rewrite !Sigma_plus, !Sigma_scal, Sigma_delta by lia. lra.
  - rewrite !Sigma_plus, !Sigma_scal.
    rewrite (quadratic_form_transpose n a x). lra.
Qed.

(** [v^T (sym(A) + eps I) v = v^T A v + eps v^T v]. *)
Lemma quadratic_form_ensure_spd n A eps v :
  quadratic_form n
    (np.tabulate n n (fun i j =>
       ratio 1 2 * (np.item A i j + np.item A j i)
       + eps * (if Nat.eqb i j then 1 else 0))) v
  = quadratic_form n A v + eps * norm2 n v.
Proof.
  unfold quadratic_form, norm2, matvec.
  rewrite <- (quadratic_form_sym_shift n (np.item A) (fun k => nth k v 0) eps).
  apply Sigma_ext. intros i Hi. apply in_seq in Hi. f_equal.
  apply Sigma_ext. intros j Hj. apply in_seq in Hj.
  rewrite item_tabulate by lia. reflexivity.
Qed.

(** Exact real arithmetic.  For every square real matrix Sigma and every
    eps > 0, ensure_spd(Sigma, eps) returns the symmetric matrix
    (Sigma + Sigma^T)/2 + eps I.  Its eigenvalues are strictly positive
    (each is at least eps) whenever Sigma is positive semidefinite,
    x^T Sigma x >= 0 for all x; nothing clips a negative eigenvalue. *)
Theorem ensure_spd_spec (n : nat) (Sigma : list (list R)) (eps : R) :
  square n Sigma -> 0 < eps ->
  exists B,
    math_utils.ensure_spd Sigma eps = Ok B /\
    square n B /\
    symmetric B /\
    (forall i j, (i < n)%nat -> (j < n)%nat ->
       np.item B i j =
       (np.item Sigma i j + np.item Sigma j i) / 2
       + eps * (if Nat.eqb i j then 1 else 0)) /\
    (positive_semidefinite n Sigma ->
     forall lam v, eigenpair n B lam v -> eps <= lam /\ 0 < lam).
Proof.
  intros HS Heps. eexists. split; [apply (ensure_spd_square eps HS)|].
  split; [apply has_shape_tabulate|]. split; [|split].
  - apply symmetric_tabulate. intros i j _ _. simpl.
    rewrite (Nat.eqb_sym j i). lra.
  - intros i j Hi Hj. rewrite item_tabulate by assumption.
    unfold ratio. simpl. lra.
  - intros Hpsd lam v (Hlen & Hnz & Heig).
    pose proof (quadratic_form_ensure_spd n Sigma eps v) as Hq.
    simpl in Hq. simpl.
    set (B := np.tabulate n n _) in *.
    assert (HB : quadratic_form n B v = lam * norm2 n v).
    { unfold quadratic_form, norm2. rewrite <- Sigma_scal.
      apply Sigma_ext. intros i Hi. apply in_seq in Hi.
      rewrite Heig by lia. lra. }
    pose proof (Hpsd v Hlen) as Hge.
    pose proof (norm2_pos Hnz) as Hpos.
    assert (eps <= lam) by nra.
    split; lra.
Qed.

Lemma example_psd : positive_semidefinite 2 [[2; 1]; [0; 2]].
Proof.
  intros v Hv. destruct v as [|x [|y [|z v]]]; try discriminate.
  unfold quadratic_form, matvec, Sigma, np.sum, np.item. simpl. nra.
Qed.

Lemma ensure_spd_spec_witness :
  exists B,
    math_utils.ensure_spd [[2; 1]; [0; 2]] (1 / 2) = Ok B /\
    square 2 B /\
    symmetric B /\
    (forall i j, (i < 2)%nat -> (j < 2)%nat ->
       np.item B i j =
       (np.item [[2; 1]; [0; 2]] i j + np.item [[2; 1]; [0; 2]] j i) / 2
       + (1 / 2) * (if Nat.eqb i j then 1 else 0)) /\
    (forall lam v, eigenpair 2 B lam v -> 1 / 2 <= lam /\ 0 < lam).
Proof.
  destruct (@ensure_spd_spec 2 [[2; 1]; [0; 2]] (1 / 2))
    as (B & Hrun & Hsq & Hsym & Hitems & Heig).
  - split; [reflexivity|]. repeat constructor.
  - lra.
  - exists B. split; [assumption|]. split; [assumption|].
    split; [assumption|]. split; [assumption|].
    exact (Heig example_psd).
Defined.

(** The example's result [[5/2, 1/2], [1/2, 5/2]] has the eigenvector
    (1, 1) for the eigenvalue 3. *)
Example ensure_spd_example_eigenpair :
  math_utils.ensure_spd [[2; 1]; [0; 2]] (1 / 2)
    = Ok [[1 / 2 * (2 + 2) + 1 / 2 * 1; 1 / 2 * (1 + 0) + 1 / 2 * 0];
          [1 / 2 * (0 + 1) + 1 / 2 * 0; 1 / 2 * (2 + 2) + 1 / 2 * 1]] /\
  eigenpair 2
    [[1 / 2 * (2 + 2) + 1 / 2 * 1; 1 / 2 * (1 + 0) + 1 / 2 * 0];
     [1 / 2 * (0 + 1) + 1 / 2 * 0; 1 / 2 * (2 + 2) + 1 / 2 * 1]]
    3 [1; 1].
Proof.
  split; [reflexivity|]. split; [reflexivity|]. split.
  - exists 0%nat. split; [lia | simpl; lra].
  - intros i Hi. destruct i as [|[|i]]; [| |lia];
      unfold matvec, Sigma, np.sum, np.item; simpl; lra.
Qed.

(** C1 as stated fails: on the 1-by-1 matrix [[-1]] with the default
    eps = 1e-6, ensure_spd returns [[-1 + 1e-6]], whose eigenvalue
    -999999/1000000 is negative. *)
Lemma ensure_spd_negative_eigenvalue :
  square 1 [[-1]] /\
  0 < math_utils.default_eps /\
  math_utils.ensure_spd [[-1]] math_utils.default_eps
    = Ok [[1 / 2 * (-1 + -1) + 1 / 1000000 * 1]] /\
  eigenpair 1 [[1 / 2 * (-1 + -1) + 1 / 1000000 * 1]] (-999999 / 1000000) [1] /\
  -999999 / 1000000 < 0.
Proof.
  split; [split; [reflexivity | repeat constructor]|].
  split; [unfold math_utils.default_eps, ratio; simpl; lra|].
  split; [reflexivity|].
  split; [|lra].
  split; [reflexivity|]. split.
  - exists 0%nat. split; [lia | simpl; lra].
  - intros i Hi. assert (i = 0%nat) as -> by lia.
    unfold matvec, Sigma, np.sum, np.item. simpl. lra.
Qed.
End SpdSpec.

(* ================================================================= *)
(** ** ensure_spd on IEEE-754 doubles: NaN and Inf entries *)

Module Float64Spec.
Import ArrayFacts SpecFloat Float64.

Lemma half_value :
  @ratio float64 _ 1 2 = S754_finite false 4503599627370496 (-53).
Proof. vm_compute. reflexivity. Qed.

Lemma add_nonfinite_l (x y : float64) :
  is_finite x = false -> is_finite (fadd x y) = false.
Proof.
  destruct x as [sx|sx| |sx mx ex]; try discriminate; intros _;
    destruct y as [sy|sy| |sy my ey]; try reflexivity;
    destruct sx, sy; reflexivity.
Qed.

Lemma add_nonfinite_r (x y : float64) :
  is_finite y = false -> is_finite (fadd x y) = false.
Proof.
  destruct y as [sy|sy| |sy my ey]; try discriminate; intros _;
    destruct x as [sx|sx| |sx mx ex]; try reflexivity;
    destruct sx, sy; reflexivity.
Qed.

Lemma half_mul_nonfinite (x : float64) :
  is_finite x = false -> is_finite (fmul (ratio 1 2) x) = false.
Proof.
  rewrite half_value.
  destruct x as [sx|sx| |sx mx ex]; try discriminate; reflexivity.
Qed.

Lemma add_nan_l (x y : float64) :
  is_nan x = true -> is_nan (fadd x y) = true.
Proof.
  destruct x; try discriminate. intros _. now destruct y.
Qed.

Lemma add_nan_r (x y : float64) :
  is_nan y = true -> is_nan (fadd x y) = true.
Proof.
  destruct y; try discriminate. intros _. now destruct x.
Qed.

Lemma mul_nan_r (x y : float64) :
  is_nan y = true -> is_nan (fmul x y) = true.
Proof.
  destruct y; try discriminate. intros _. now destruct x.
Qed.

(** C2 (amended).  ensure_spd validates nothing: on every square array of
    doubles, NaN and Inf entries included, it returns an array and raises
    no error; a NaN entry of Sigma makes the entries (i,j) and (j,i) of the
    result NaN, and a NaN or Inf entry makes them NaN or Inf. *)
Theorem ensure_spd_propagates_nonfinite
    (n : nat) (Sigma : list (list float64)) (eps : float64) :
  square n Sigma ->
  exists B,
    math_utils.ensure_spd Sigma eps = Ok B /\
    square n B /\
    (forall i j, i < n -> j < n ->
       is_nan (np.item Sigma i j) = true ->
       is_nan (np.item B i j) = true /\ is_nan (np.item B j i) = true) /\
    (forall i j, i < n -> j < n ->
       is_finite (np.item Sigma i j) = false ->
       is_finite (np.item B i j) = false /\ is_finite (np.item B j i) = false).
Proof.
  intros HS. eexists. split; [apply (ensure_spd_square eps HS)|].
  split; [apply has_shape_tabulate|]. split.
  - intros i j Hi Hj Hnan. rewrite !item_tabulate by assumption. split.
    + apply add_nan_l, mul_nan_r, add_nan_l, Hnan.
    + apply add_nan_l, mul_nan_r, add_nan_r, Hnan.
  - intros i j Hi Hj Hinf. rewrite !item_tabulate by assumption. split.
    + apply add_nonfinite_l, half_mul_nonfinite, add_nonfinite_l, Hinf.
    + apply add_nonfinite_l, half_mul_nonfinite, add_nonfinite_r, Hinf.
Qed.

Lemma ensure_spd_propagates_nonfinite_witness :
  exists B,
    math_utils.ensure_spd [[of_Z 1; inf]; [of_Z 2; nan]] math_utils.default_eps
      = Ok B /\
    square 2 B /\
    (forall i j, i < 2 -> j < 2 ->
       is_nan (np.item [[of_Z 1; inf]; [of_Z 2; nan]] i j) = true ->
       is_nan (np.item B i j) = true /\ is_nan (np.item B j i) = true) /\
    (forall i j, i < 2 -> j < 2 ->
       is_finite (np.item [[of_Z 1; inf]; [of_Z 2; nan]] i j) = false ->
       is_finite (np.item B i j) = false /\ is_finite (np.item B j i) = false).
Proof.
  apply (@ensure_spd_propagates_nonfinite 2
           [[of_Z 1; inf]; [of_Z 2; nan]] math_utils.default_eps).
  split; [reflexivity|]. repeat constructor.
Defined.

(** C2 as stated fails: on [[nan]] and on [[1, inf], [2, nan]]
    ensure_spd returns, and the result carries the bad entries. *)
Lemma ensure_spd_returns_nan :
  math_utils.ensure_spd [[nan]] math_utils.default_eps = Ok [[nan]] /\
  math_utils.ensure_spd [[of_Z 1; inf]; [of_Z 2; nan]] math_utils.default_eps
    = Ok [[S754_finite false 4503604130970123 (-52); inf]; [inf; nan]].
Proof. split; vm_compute; reflexivity. Qed.

(** In doubles too, nothing clips a negative eigenvalue: on [[-1.0]] the
    result is the negative number -0.999999. *)
Example ensure_spd_negative_double :
  math_utils.ensure_spd [[of_Z (-1)]] math_utils.default_eps
  = Ok [[S754_finite true 9007190247541737 (-53)]].
Proof. vm_compute. reflexivity. Qed.
End Float64Spec.

(* ================================================================= *)
(** ** compute_social_influence_matrix *)

Module SoftmaxFacts.
Import ArrayFacts epistemic_inertia.
Section Generic.
Context {F : Type} `{Scalar F} `{Exponential F}.

Variable compute_kl_matrix :
  MultiAgentSystem.t F -> kl_mode -> result (list (list F)).

(** The unnormalised weight [exp(-KL_ij / kappa)]. *)
Definition weight (kl : list (list F)) (kappa : F) (i j : nat) : F :=
  fexp (fdiv (fneg (np.item kl i j)) kappa).

(** The normaliser of row [i]: the sum over every column [k], [k = i]
    included. *)
Definition row_total (n : nat) (kl : list (list F)) (kappa : F) (i : nat) : F :=
  np.sum (map (weight kl kappa i) (seq 0 n)).

Lemma nth_tabulate r c (f : nat -> nat -> F) i :
  i < r -> nth i (np.tabulate r c f) [] = map (f i) (seq 0 c).
Proof.
  intros Hi. unfold np.tabulate. now rewrite (nth_map_seq _ [] 0 Hi).
Qed.

Lemma broadcast_dim_one n : np.broadcast_dim n 1 = Ok n.
Proof.
  unfold np.broadcast_dim.
  destruct (Nat.eqb_spec n 1) as [->|_]; [reflexivity|].
  reflexivity.
Qed.

Lemma sum_axis1_shape r c (M : list (list F)) :
  has_shape r c M -> has_shape r 1 (np.sum_axis1_keepdims M).
Proof.
  intros [Hr _]. unfold np.sum_axis1_keepdims. split.
  - now rewrite length_map.
  - apply Forall_forall. intros row Hrow.
    now apply in_map_iff in Hrow as (x & <- & _).
Qed.

Lemma item_sum_axis1 (M : list (list F)) i :
  i < length M ->
  np.item (np.sum_axis1_keepdims M) i 0 = np.sum (nth i M []).
Proof.
  intros Hi. unfold np.item, np.sum_axis1_keepdims.
  rewrite (nth_indep _ [] [np.sum []]) by now rewrite length_map.
  now rewrite (map_nth (fun row => [np.sum row]) M [] i).
Qed.

Lemma exp_weights n kl kappa :
  square n kl ->
  np.exp (np.div_scalar (np.negative kl) kappa) =
  np.tabulate n n (weight kl kappa).
Proof.
  intros Hkl. unfold np.exp, np.div_scalar, np.negative.
  rewrite (has_shape_eq_tabulate Hkl) at 1.
  now rewrite !map_map_tabulate.
Qed.

(** What [compute_social_influence_matrix] computes on an n-by-n KL
    matrix: no branch of it raises, whatever the temperature. *)
Lemma social_influence_square system kl n :
  compute_kl_matrix system mode_belief = Ok kl ->
  square n kl ->
  compute_social_influence_matrix compute_kl_matrix system =
  Ok (np.tabulate n n (fun i j =>
        let kappa := SystemConfig.kappa_beta (MultiAgentSystem.config system) in
        fdiv (weight kl kappa i j) (row_total n kl kappa i))).
Proof.
  intros Hkl Hsq. unfold compute_social_influence_matrix.
  rewrite Hkl. cbn [bind].
  set (kappa := SystemConfig.kappa_beta _).
  rewrite (exp_weights kappa Hsq).
  set (beta := np.tabulate n n _).
  assert (Hbeta : has_shape n n beta) by apply has_shape_tabulate.
  pose proof (sum_axis1_shape Hbeta) as Hsums.
  unfold np.divide, np.zip_with.
  rewrite (nrows_shape Hbeta), (nrows_shape Hsums), broadcast_dim_same.
  cbn [bind].
  destruct n as [|n'].
  - reflexivity.
  - rewrite (ncols_shape Hbeta), (ncols_shape Hsums) by lia.
    rewrite broadcast_dim_one. cbn [bind]. f_equal.
    apply tabulate_ext. intros i j Hi Hj.
    rewrite !bidx_lt by assumption.
    change (np.bidx 1 j) with 0.
    rewrite item_sum_axis1 by (destruct Hbeta; lia).
    unfold beta. rewrite item_tabulate, nth_tabulate by assumption.
    reflexivity.
Qed.
End Generic.
End SoftmaxFacts.

Module SoftmaxSpec.
Import ArrayFacts RealSums SoftmaxFacts epistemic_inertia.
Local Open Scope R_scope.

Implicit Types (kl : list (list R)) (kappa : R).

Lemma weight_R kl kappa i j :
  weight kl kappa i j = exp (- np.item kl i j / kappa).
Proof. reflexivity. Qed.

Lemma weight_pos kl kappa i j : 0 < weight kl kappa i j.
Proof. rewrite weight_R. apply exp_pos. Qed.

Lemma row_total_pos n kl kappa i : (0 < n)%nat -> 0 < row_total n kl kappa i.
Proof.
  intros Hn. unfold row_total. apply sum_pos.
  - destruct n; [lia|]. discriminate.
  - apply Forall_forall. intros x Hx.
    apply in_map_iff in Hx as (j & <- & _). apply weight_pos.
Qed.

(** Every row of the normalised table sums to one. *)
Lemma normalised_row_sum n kl kappa i :
  (0 < n)%nat ->
  np.sum (map (fun j => weight kl kappa i j / row_total n kl kappa i) (seq 0 n))
  = 1.
Proof.
  intros Hn.
  rewrite <- (map_map (weight kl kappa i) (fun x => x / row_total n kl kappa i)).
  rewrite sum_map_div. fold (row_total n kl kappa i).
  pose proof (row_total_pos kl kappa i Hn). now field_simplify_eq; [|lra].
Qed.

(** The rows of the returned matrix, over exact real arithmetic. *)
Lemma social_influence_rows
    (compute_kl_matrix : MultiAgentSystem.t R -> kl_mode -> result (list (list R)))
    (system : MultiAgentSystem.t R) (kl : list (list R)) (n : nat) :
  compute_kl_matrix system mode_belief = Ok kl ->
  square n kl ->
  exists beta,
    compute_social_influence_matrix compute_kl_matrix system = Ok beta /\
    square n beta /\
    forall i, (i < n)%nat ->
      (forall j, (j < n)%nat ->
         0 < np.item beta i j /\
         np.item beta i j =
           weight kl (SystemConfig.kappa_beta (MultiAgentSystem.config system)) i j
           / row_total n kl
               (SystemConfig.kappa_beta (MultiAgentSystem.config system)) i) /\
      np.sum (nth i beta []) = 1.
Proof.
  intros Hkl Hsq.
  set (kappa := SystemConfig.kappa_beta _) in *.
  eexists. split; [apply (social_influence_square _ _ Hkl Hsq)|].
  split; [apply has_shape_tabulate|].
  intros i Hi. cbn zeta. fold kappa. split.
  - intros j Hj. rewrite item_tabulate by assumption. split.
    + apply Rdiv_lt_0_compat;
        [apply weight_pos | apply row_total_pos; lia].
    + reflexivity.
  - rewrite nth_tabulate by assumption.
    apply normalised_row_sum. lia.
Qed.

(** C4.  For every system whose temperature kappa_beta is strictly
    positive and whose n-by-n KL matrix is finite (real), the matrix
    returned by compute_social_influence_matrix has, in every row i,
    non-negative entries exp(-KL_ij/kappa) / sum_k exp(-KL_ik/kappa)
    that sum to 1. *)
Theorem social_influence_row_stochastic
    (compute_kl_matrix : MultiAgentSystem.t R -> kl_mode -> result (list (list R)))
    (system : MultiAgentSystem.t R) (kl : list (list R)) (n : nat) :
  compute_kl_matrix system mode_belief = Ok kl ->
  square n kl ->
  0 < SystemConfig.kappa_beta (MultiAgentSystem.config system) ->
  exists beta,
    compute_social_influence_matrix compute_kl_matrix system = Ok beta /\
    square n beta /\
    forall i, (i < n)%nat ->
      (forall j, (j < n)%nat ->
         0 <= np.item beta i j /\
         np.item beta i j =
           exp (- np.item kl i j
                / SystemConfig.kappa_beta (MultiAgentSystem.config system))
           / np.sum (map (fun k =>
               exp (- np.item kl i k
                    / SystemConfig.kappa_beta (MultiAgentSystem.config system)))
               (seq 0 n))) /\
      np.sum (nth i beta []) = 1.
Proof.
  intros Hkl Hsq Hkappa.
  destruct (social_influence_rows _ _ Hkl Hsq)
    as (beta & Hbeta & Hshape & Hrows).
  exists beta. split; [assumption|]. split; [assumption|].
  intros i Hi. destruct (Hrows i Hi) as [Hentries Hsum].
  split; [|assumption].
  intros j Hj. destruct (Hentries j Hj) as [Hpos Hval].
  split; [lra | exact Hval].
Qed.

(** *** Two agents holding the same belief *)

Definition example_agent (i : Z) : Agent.t R :=
  Agent.mk i (AgentConfig.mk 1 0 1 0 0) (Seeded i) 1 (Vec [0]).

Definition two_agents (kappa : R) : MultiAgentSystem.t R :=
  MultiAgentSystem.mk [example_agent 0; example_agent 1]
                      (SystemConfig.mk 1 0 0 kappa).

(** Their pairwise KL divergences are all zero. *)
Definition zero_kl (system : MultiAgentSystem.t R) (mode : kl_mode)
    : result (list (list R)) :=
  Ok [[0; 0]; [0; 0]].

Lemma zero_kl_square : square 2 [[0; 0]; [0; 0]].
Proof. split; [reflexivity|]. repeat constructor. Qed.

Lemma two_agents_influence kappa :
  kappa <> 0 ->
  compute_social_influence_matrix zero_kl (two_agents kappa) =
  Ok [[1 / 2; 1 / 2]; [1 / 2; 1 / 2]].
Proof.
  intros Hk.
  rewrite (social_influence_square zero_kl (two_agents kappa)
             eq_refl zero_kl_square).
  f_equal. unfold np.tabulate, row_total, np.sum, weight, np.item. simpl.
  replace (- 0 / kappa) with 0 by (field; assumption).
  rewrite exp_0.
  repeat (f_equal; try lra).
Qed.

Lemma social_influence_row_stochastic_witness :
  exists beta,
    compute_social_influence_matrix zero_kl (two_agents 1) = Ok beta /\
    square 2 beta /\
    forall i, (i < 2)%nat ->
      (forall j, (j < 2)%nat ->
         0 <= np.item beta i j /\
         np.item beta i j =
           exp (- np.item [[0; 0]; [0; 0]] i j / 1)
           / np.sum (map (fun k => exp (- np.item [[0; 0]; [0; 0]] i k / 1))
                         (seq 0 2))) /\
      np.sum (nth i beta []) = 1.
Proof.
  apply (@social_influence_row_stochastic zero_kl (two_agents 1)
           [[0; 0]; [0; 0]] 2).
  - reflexivity.
  - split; [reflexivity|]. repeat constructor.
  - simpl. lra.
Defined.

(** *** The diagonal *)

(** The sum of the entries of row [i] other than the diagonal one. *)
Definition off_diagonal_sum (n : nat) (beta : list (list R)) (i : nat) : R :=
  Sigma (seq 0 n) (fun j => if Nat.eqb i j then 0 else np.item beta i j).

Lemma off_diagonal_sum_eq n beta i :
  (i < n)%nat ->
  off_diagonal_sum n beta i =
  Sigma (seq 0 n) (np.item beta i) - np.item beta i i.
Proof.
  intros Hi. unfold off_diagonal_sum.
  rewrite <- (@Sigma_delta 0 n i (np.item beta i)) by lia.
  assert (E : forall a b c, a + b = c -> a = c - b) by (intros; lra).
  apply E. rewrite <- Sigma_plus. apply Sigma_ext. intros j _.
  destruct (Nat.eqb i j); lra.
Qed.

(** compute_social_influence_matrix itself masks nothing: whether the
    diagonal takes part in the normalization is decided by the KL matrix
    it is given.  Over the reals, where every entry of that matrix is
    finite, and for N >= 2 agents at a temperature kappa_beta other than
    0, the diagonal weight beta_ii is
    exp(-KL_ii/kappa) / sum_k exp(-KL_ik/kappa) with k = i inside the sum;
    it is strictly positive, and the weights row i gives to the other
    agents sum to 1 - beta_ii < 1. *)
Theorem social_influence_diagonal_included
    (compute_kl_matrix : MultiAgentSystem.t R -> kl_mode -> result (list (list R)))
    (system : MultiAgentSystem.t R) (kl : list (list R)) (n : nat) :
  compute_kl_matrix system mode_belief = Ok kl ->
  square n kl ->
  (2 <= n)%nat ->
  SystemConfig.kappa_beta (MultiAgentSystem.config system) <> 0 ->
  exists beta,
    compute_social_influence_matrix compute_kl_matrix system = Ok beta /\
    forall i, (i < n)%nat ->
      np.item beta i i =
        exp (- np.item kl i i
             / SystemConfig.kappa_beta (MultiAgentSystem.config system))
        / np.sum (map (fun k =>
            exp (- np.item kl i k
                 / SystemConfig.kappa_beta (MultiAgentSystem.config system)))
            (seq 0 n)) /\
      0 < np.item beta i i /\
      off_diagonal_sum n beta i = 1 - np.item beta i i /\
      off_diagonal_sum n beta i < 1.
Proof.
  intros Hkl Hsq Hn Hkappa.
  destruct (social_influence_rows _ _ Hkl Hsq)
    as (beta & Hbeta & Hshape & Hrows).
  exists beta. split; [assumption|]. intros i Hi.
  destruct (Hrows i Hi) as [Hentries Hsum].
  destruct (Hentries i Hi) as [Hpos Hdiag].
  assert (Hoff : off_diagonal_sum n beta i = 1 - np.item beta i i).
  { rewrite off_diagonal_sum_eq by assumption. f_equal.
    rewrite <- Hsum. unfold Sigma. f_equal. symmetry.
    etransitivity; [apply (list_eq_map_nth (nth i beta []) 0)|].
    now rewrite (has_shape_row Hshape Hi). }
  repeat split; try assumption. lra.
Qed.

Lemma social_influence_diagonal_included_witness :
  exists beta,
    compute_social_influence_matrix zero_kl (two_agents 1) = Ok beta /\
    forall i, (i < 2)%nat ->
      np.item beta i i =
        exp (- np.item [[0; 0]; [0; 0]] i i / 1)
        / np.sum (map (fun k => exp (- np.item [[0; 0]; [0; 0]] i k / 1))
                      (seq 0 2)) /\
      0 < np.item beta i i /\
      off_diagonal_sum 2 beta i = 1 - np.item beta i i /\
      off_diagonal_sum 2 beta i < 1.
Proof.
  apply (@social_influence_diagonal_included zero_kl (two_agents 1)
           [[0; 0]; [0; 0]] 2).
  - reflexivity.
  - split; [reflexivity|]. repeat constructor.
  - lia.
  - simpl. lra.
Defined.

(** On a KL matrix of zeros, diagonal included, at temperature 1, each of
    two agents gives itself the weight 1/2, so only 1/2 of row 0 is spread
    over the other agent. *)
Lemma social_influence_self_weight :
  compute_social_influence_matrix zero_kl (two_agents 1) =
    Ok [[1 / 2; 1 / 2]; [1 / 2; 1 / 2]] /\
  np.item [[1 / 2; 1 / 2]; [1 / 2; 1 / 2]] 0 0 = 1 / 2 /\
  off_diagonal_sum 2 [[1 / 2; 1 / 2]; [1 / 2; 1 / 2]] 0 = 1 / 2 /\
  1 / 2 <> 0 /\ 1 / 2 <> 1.
Proof.
  split; [apply two_agents_influence; lra|].
  split; [reflexivity|].
  split; [|lra].
  unfold off_diagonal_sum, Sigma, np.sum, np.item. simpl. lra.
Qed.

(** *** Temperatures that are not positive *)

Lemma weight_negative_temperature kl kappa i j :
  kappa < 0 -> weight kl kappa i j = exp (np.item kl i j / - kappa).
Proof.
  intros Hk. rewrite weight_R. f_equal. field. lra.
Qed.

(** Exact real arithmetic.  When kappa_beta <= 0 the call raises nothing
    and returns an n-by-n matrix computed with that kappa.  For
    kappa_beta < 0 the entries are
    exp(KL_ij/|kappa|) / sum_k exp(KL_ik/|kappa|): without overflow every
    row is still positive and sums to 1, with the larger weight on the
    more distant agent. *)
Theorem social_influence_nonpositive_temperature
    (compute_kl_matrix : MultiAgentSystem.t R -> kl_mode -> result (list (list R)))
    (system : MultiAgentSystem.t R) (kl : list (list R)) (n : nat) :
  compute_kl_matrix system mode_belief = Ok kl ->
  square n kl ->
  SystemConfig.kappa_beta (MultiAgentSystem.config system) <= 0 ->
  exists beta,
    compute_social_influence_matrix compute_kl_matrix system = Ok beta /\
    square n beta /\
    (SystemConfig.kappa_beta (MultiAgentSystem.config system) < 0 ->
     forall i, (i < n)%nat ->
       (forall j, (j < n)%nat ->
          0 < np.item beta i j /\
          np.item beta i j =
            exp (np.item kl i j
                 / - SystemConfig.kappa_beta (MultiAgentSystem.config system))
            / np.sum (map (fun k =>
                exp (np.item kl i k
                     / - SystemConfig.kappa_beta (MultiAgentSystem.config system)))
                (seq 0 n))) /\
       np.sum (nth i beta []) = 1).
Proof.
  intros Hkl Hsq Hkappa.
  destruct (social_influence_rows _ _ Hkl Hsq)
    as (beta & Hbeta & Hshape & Hrows).
  exists beta. split; [assumption|]. split; [assumption|].
  intros Hneg i Hi. destruct (Hrows i Hi) as [Hentries Hsum].
  split; [|assumption].
  intros j Hj. destruct (Hentries j Hj) as [Hpos Hval].
  split; [assumption|]. rewrite Hval. unfold row_total.
  rewrite weight_negative_temperature by assumption.
  do 2 f_equal. apply map_ext. intros k.
  now apply weight_negative_temperature.
Qed.

Lemma social_influence_nonpositive_temperature_witness :
  exists beta,
    compute_social_influence_matrix zero_kl (two_agents (-2)) = Ok beta /\
    square 2 beta /\
    (-2 < 0 ->
     forall i, (i < 2)%nat ->
       (forall j, (j < 2)%nat ->
          0 < np.item beta i j /\
          np.item beta i j =
            exp (np.item [[0; 0]; [0; 0]] i j / - -2)
            / np.sum (map (fun k => exp (np.item [[0; 0]; [0; 0]] i k / - -2))
                          (seq 0 2))) /\
       np.sum (nth i beta []) = 1).
Proof.
  apply (@social_influence_nonpositive_temperature zero_kl (two_agents (-2))
           [[0; 0]; [0; 0]] 2).
  - reflexivity.
  - split; [reflexivity|]. repeat constructor.
  - simpl. lra.
Defined.

End SoftmaxSpec.

(* ================================================================= *)
(** ** compute_epistemic_inertia *)

Module InertiaSpec.
Import ArrayFacts epistemic_inertia.
Section Generic.
Context {F : Type} `{Scalar F}.

Variable build_mu_mass_matrix : MultiAgentSystem.t F -> result (list (list F)).

Implicit Types M : list (list F).

(** The trace of the [i]-th K-by-K diagonal block of [M], by indices:
    the sum of [M[iK + d, iK + d]] for [d < K]. *)
Definition block_trace (M : list (list F)) (K i : nat) : F :=
  np.sum (map (fun d => np.item M (i * K + d) (i * K + d)) (seq 0 K)).

Lemma setitem_middle (l1 l2 : list F) (y x : F) (i : nat) :
  i = length l1 ->
  np.setitem (l1 ++ y :: l2) i x = l1 ++ x :: l2.
Proof.
  intros ->. induction l1 as [|h l1 IH]; simpl; [reflexivity|].
  now rewrite IH.
Qed.

(** The loop [for i in range(n): inertia[i] = g(i)] on [np.zeros(n)]. *)
Lemma fill_loop (g : nat -> F) (n k : nat) :
  k <= n ->
  fold_left (fun inertia i => np.setitem inertia i (g i)) (seq 0 k) (np.zeros n)
  = map g (seq 0 k) ++ repeat f0 (n - k).
Proof.
  induction k as [|k IH]; intros Hk.
  - simpl. now rewrite Nat.sub_0_r.
  - rewrite seq_S, fold_left_app, IH by lia. cbn [fold_left Nat.add].
    replace (n - k) with (S (n - S k)) by lia. cbn [repeat].
    rewrite setitem_middle by now rewrite length_map, length_seq.
    rewrite map_app, <- app_assoc. reflexivity.
Qed.

Lemma fill_loop_all (g : nat -> F) (n : nat) :
  fold_left (fun inertia i => np.setitem inertia i (g i)) (seq 0 n) (np.zeros n)
  = map g (seq 0 n).
Proof.
  rewrite fill_loop by lia. rewrite Nat.sub_diag. apply app_nil_r.
Qed.

Lemma nth_slice {A} (a b : nat) (l : list A) (d : nat) (dflt : A) :
  d < b - a -> nth d (np.slice a b l) dflt = nth (a + d) l dflt.
Proof.
  intros Hd. unfold np.slice. rewrite nth_firstn.
  destruct (Nat.ltb_spec d (b - a)); [|lia]. apply nth_skipn.
Qed.

Lemma length_slice {A} (a b : nat) (l : list A) :
  b <= length l -> length (np.slice a b l) = b - a.
Proof.
  intros Hb. unfold np.slice. rewrite length_firstn, length_skipn. lia.
Qed.

Lemma In_slice {A} (a b : nat) (l : list A) (x : A) :
  In x (np.slice a b l) -> In x l.
Proof.
  unfold np.slice. intros Hin.
  rewrite <- (firstn_skipn a l). apply in_or_app. right.
  rewrite <- (firstn_skipn (b - a) (skipn a l)). apply in_or_app. now left.
Qed.

Lemma block_shape M N a b :
  has_shape N N M -> b <= N -> has_shape (b - a) (b - a) (np.block M a b).
Proof.
  intros [Hr Hc] Hb. unfold np.block. split.
  - rewrite length_map. apply length_slice. lia.
  - apply Forall_forall. intros row Hrow.
    apply in_map_iff in Hrow as (r & <- & Hin).
    apply length_slice. rewrite Forall_forall in Hc.
    rewrite (Hc r); [assumption|].
    eapply In_slice, Hin.
Qed.

Lemma slice_nil {A} (a b : nat) : np.slice a b (@nil A) = [].
Proof. unfold np.slice. now rewrite skipn_nil, firstn_nil. Qed.

Lemma nth_map_slice (a b : nat) (L : list (list F)) (d : nat) :
  nth d (map (np.slice a b) L) [] = np.slice a b (nth d L []).
Proof.
  rewrite <- (map_nth (np.slice a b) L [] d).
  f_equal. symmetry. apply slice_nil.
Qed.

Lemma item_block M a b d e :
  d < b - a -> e < b - a ->
  np.item (np.block M a b) d e = np.item M (a + d) (a + e).
Proof.
  intros Hd He. unfold np.item, np.block.
  rewrite nth_map_slice.
  rewrite (nth_slice _ _ _ (@nil F) Hd).
  now rewrite (nth_slice _ _ _ f0 He).
Qed.

(** [np.trace] of the sliced block is the sum of the diagonal entries of
    the block inside [M]. *)
Lemma trace_block M n K i :
  has_shape (n * K) (n * K) M -> i < n ->
  np.trace (np.block M (i * K) ((i + 1) * K)) = block_trace M K i.
Proof.
  intros HM Hi.
  assert (Hb : (i + 1) * K <= n * K) by (apply Nat.mul_le_mono_r; lia).
  assert (HK : (i + 1) * K - i * K = K) by lia.
  pose proof (block_shape (i * K) HM Hb) as Hblock.
  rewrite HK in Hblock.
  unfold np.trace, block_trace.
  rewrite (nrows_shape Hblock).
  destruct K as [|K'].
  - reflexivity.
  - rewrite (ncols_shape Hblock), Nat.min_id by lia.
    f_equal. apply map_seq_ext. intros d Hd.
    apply item_block; lia.
Qed.

(** C5.  For every system of n >= 1 agents with belief dimension K (the K
    of agent 0) whose mass matrix M = build_mu_mass_matrix(system) is
    nK-by-nK, compute_epistemic_inertia returns an array of length n whose
    i-th entry is the trace of the i-th K-by-K diagonal block of M
    divided by K.  It holds in every number model. *)
Theorem compute_epistemic_inertia_spec
    (system : MultiAgentSystem.t F) (M : list (list F)) (agent0 : Agent.t F) :
  build_mu_mass_matrix system = Ok M ->
  nth_error (MultiAgentSystem.agents system) 0 = Some agent0 ->
  has_shape (MultiAgentSystem.n_agents system * Agent.K agent0)
            (MultiAgentSystem.n_agents system * Agent.K agent0) M ->
  exists inertia,
    compute_epistemic_inertia build_mu_mass_matrix system = Ok inertia /\
    length inertia = MultiAgentSystem.n_agents system /\
    forall i, i < MultiAgentSystem.n_agents system ->
      nth i inertia f0 =
      fdiv (block_trace M (Agent.K agent0) i) (fofZ (Z.of_nat (Agent.K agent0))).
Proof.
  intros HM H0 Hshape. unfold compute_epistemic_inertia, getitem.
  rewrite HM, H0. cbn [bind].
  set (n := MultiAgentSystem.n_agents system) in *.
  set (K := Agent.K agent0) in *.
  eexists. split; [reflexivity|].
  rewrite fill_loop_all. split.
  - now rewrite length_map, length_seq.
  - intros i Hi. rewrite (nth_map_seq _ f0 0 Hi). simpl.
    now rewrite (@trace_block M n K i Hshape Hi).
Qed.

(** A system without agents has no [agents[0]]. *)
Lemma compute_epistemic_inertia_no_agents system M :
  build_mu_mass_matrix system = Ok M ->
  MultiAgentSystem.agents system = [] ->
  compute_epistemic_inertia build_mu_mass_matrix system = Raise IndexError.
Proof.
  intros HM Hnil. unfold compute_epistemic_inertia, getitem.
  now rewrite HM, Hnil.
Qed.
End Generic.

(** *** Two agents of belief dimension 2 *)

Local Open Scope R_scope.

Definition agent_K2 (i : Z) : Agent.t R :=
  Agent.mk i (AgentConfig.mk 2 0 1 0 0) (Seeded i) 2 (Vec [0; 0]).

Definition system_K2 : MultiAgentSystem.t R :=
  MultiAgentSystem.mk [agent_K2 0; agent_K2 1] (SystemConfig.mk 1 0 0 1).

Definition mass_K2 : list (list R) :=
  [[1; 2; 0; 0];
   [3; 4; 0; 0];
   [0; 0; 5; 6];
   [0; 0; 7; 8]].

Lemma mass_K2_shape :
  has_shape (MultiAgentSystem.n_agents system_K2 * Agent.K (agent_K2 0))
            (MultiAgentSystem.n_agents system_K2 * Agent.K (agent_K2 0))
            mass_K2.
Proof. split; [reflexivity|]. repeat constructor. Qed.

Lemma compute_epistemic_inertia_spec_witness :
  exists inertia,
    compute_epistemic_inertia (fun _ => Ok mass_K2) system_K2 = Ok inertia /\
    length inertia = 2%nat /\
    forall i, (i < 2)%nat ->
      nth i inertia 0 = block_trace mass_K2 2 i / 2.
Proof.
  exact (@compute_epistemic_inertia_spec R _ (fun _ => Ok mass_K2)
           system_K2 mass_K2 (agent_K2 0) eq_refl eq_refl mass_K2_shape).
Defined.

(** The inertia scores of the example: (1 + 4)/2 and (5 + 8)/2. *)
Example inertia_K2 :
  compute_epistemic_inertia (fun _ => Ok mass_K2) system_K2
  = Ok [(0 + 1 + 4) / 2; (0 + 5 + 8) / 2].
Proof. reflexivity. Qed.
End InertiaSpec.

(* ================================================================= *)
(** ** create_agents *)

Module CreateAgentsSpec.
Import epistemic_inertia.
Local Open Scope Z_scope.

(** A seed [np.random.default_rng] accepts: [None] or a non-negative
    integer. *)
Definition valid_seed (seed : option Z) : Prop :=
  match seed with
  | None => True
  | Some s => 0 <= s
  end.

(** The seeds for which [seed + i if seed else None] is [None]. *)
Definition falsy (seed : option Z) : bool :=
  match seed with
  | None => true
  | Some s => s =? 0
  end.

Definition polarized (preset : SociologyPresets) : bool :=
  preset_eqb preset POLARIZATION.

(** Entropy values one iteration of the loop draws. *)
Definition draws_per_agent (preset : SociologyPresets) (seed : option Z) : nat :=
  if falsy seed then (if polarized preset then 2%nat else 1%nat) else 0%nat.

(** Entropy values drawn when the loop starts on agent [i], counted
    from the call of [create_agents]. *)
Definition draws_before (preset : SociologyPresets) (seed : option Z) (i : nat) : nat :=
  ((match seed with None => 1 | Some _ => 0 end)
   + i * draws_per_agent preset seed)%nat.

Section Loop.
Context {F : Type} `{Scalar F}.
Variable os_entropy : nat -> Z.
Variable init_mu_q : AgentConfig.t F -> Generator -> belief_array F.

(** The random source handed to agent [i] when [drawn] values have been
    drawn before its iteration. *)
Definition agent_rng (preset : SociologyPresets) (seed : option Z)
    (i : Z) (drawn : nat) : Generator :=
  match agent_seed seed i with
  | Some s => Seeded s
  | None =>
      FromEntropy (os_entropy (drawn + if polarized preset then 1 else 0)%nat)
  end.

(** The state of [agent_config] the constructor of agent [i] sees. *)
Definition config_step (n_agents : Z) (preset : SociologyPresets) (i : Z)
    (cfg : AgentConfig.t F) : AgentConfig.t F :=
  let cfg :=
    if preset_eqb preset EXPERT_VS_NOVICE then
      if fltb (fofZ i) (fmul (fofZ n_agents) (ratio 2 10))
      then AgentConfig.set_sigma_scale cfg (ratio 1 10)
      else AgentConfig.set_sigma_scale cfg (ratio 5 10)
    else cfg in
  if preset_eqb preset POLARIZATION then
    if i <? n_agents / 2
    then AgentConfig.set_mu_scale cfg (ratio 5 10)
    else AgentConfig.set_mu_scale cfg (fneg (ratio 5 10))
  else cfg.

Lemma default_rng_agent_seed seed i drawn :
  valid_seed seed -> 0 <= i ->
  default_rng os_entropy (agent_seed seed i) drawn =
  Ok (match agent_seed seed i with
      | Some s => Seeded s
      | None => FromEntropy (os_entropy drawn)
      end,
      (drawn + if falsy seed then 1 else 0)%nat).
Proof.
  intros Hseed Hi. unfold default_rng, agent_seed, falsy.
  destruct seed as [s|]; simpl in *.
  - destruct (Z.eqb_spec s 0) as [->|Hs].
    + now rewrite Nat.add_1_r.
    + destruct (Z.ltb_spec (s + i) 0); [lia|]. now rewrite Nat.add_0_r.
  - now rewrite Nat.add_1_r.
Qed.

(** One iteration of the loop. *)
Lemma create_agents_body_eq n_agents preset seed i cfg agents drawn :
  valid_seed seed -> 0 <= i ->
  create_agents_body os_entropy init_mu_q n_agents preset seed i (cfg, agents) drawn
  = Ok ((config_step n_agents preset i cfg,
         agents ++ [Agent.init init_mu_q i (config_step n_agents preset i cfg)
                               (agent_rng preset seed i drawn)]),
        (drawn + draws_per_agent preset seed)%nat).
Proof.
  intros Hseed Hi.
  unfold create_agents_body, config_step, agent_rng, draws_per_agent, polarized.
  unfold io_bind, io_ret.
  pose proof (fun d => @default_rng_agent_seed seed i d Hseed Hi) as E.
  assert (Hnone : falsy seed = true -> agent_seed seed i = None).
  { destruct seed as [s|]; simpl; [|reflexivity]. now intros ->. }
  assert (Hsome : falsy seed = false -> exists s, agent_seed seed i = Some s).
  { destruct seed as [s|]; simpl; [|discriminate]. intros ->. eauto. }
  destruct (preset_eqb preset POLARIZATION).
  - rewrite E. cbn iota beta. rewrite E. cbn iota beta.
    destruct (falsy seed) eqn:Hf.
    + rewrite (Hnone eq_refl). do 2 f_equal. lia.
    + destruct (Hsome eq_refl) as [s ->]. do 2 f_equal. lia.
  - rewrite E. cbn iota beta.
    destruct (falsy seed) eqn:Hf.
    + rewrite (Hnone eq_refl), Nat.add_0_r. reflexivity.
    + destruct (Hsome eq_refl) as [s ->]. reflexivity.
Qed.

(** The loop over [a, a+1, .., a+k-1]. *)
Lemma create_agents_loop n_agents preset seed k :
  valid_seed seed ->
  forall a cfg agents drawn,
  exists cfg' new,
    for_each (create_agents_body os_entropy init_mu_q n_agents preset seed)
             (map Z.of_nat (seq a k)) (cfg, agents) drawn
    = Ok ((cfg', agents ++ new), (drawn + k * draws_per_agent preset seed)%nat) /\
    map Agent.agent_id new = map Z.of_nat (seq a k) /\
    forall j agent, nth_error new j = Some agent ->
      Agent.rng agent =
      agent_rng preset seed (Z.of_nat (a + j))
                (drawn + j * draws_per_agent preset seed)%nat.
Proof.
  intros Hseed. induction k as [|k IH]; intros a cfg agents drawn.
  - exists cfg, []. simpl. unfold io_ret.
    rewrite app_nil_r, Nat.add_0_r. repeat split.
    intros [|j] agent; discriminate.
  - cbn [seq map for_each]. unfold io_bind at 1.
    rewrite create_agents_body_eq by (assumption || lia).
    set (cfg1 := config_step n_agents preset (Z.of_nat a) cfg).
    set (ag := Agent.init init_mu_q (Z.of_nat a) cfg1 _).
    destruct (IH (S a) cfg1 (agents ++ [ag])
                 (drawn + draws_per_agent preset seed)%nat)
      as (cfg' & new & Hrun & Hids & Hrng).
    exists cfg', (ag :: new). rewrite Hrun. split; [|split].
    + rewrite <- app_assoc. simpl. do 2 f_equal. lia.
    + simpl. now rewrite Hids.
    + intros [|j] agent Hnth; simpl in Hnth.
      * injection Hnth as <-. simpl.
        now rewrite Nat.add_0_r, Nat.add_0_r.
      * rewrite (Hrng j agent Hnth). f_equal; lia.
Qed.

(** What [create_agents] returns when the seed is acceptable. *)
Lemma create_agents_run n_agents preset config seed drawn :
  valid_seed seed ->
  exists agents,
    create_agents os_entropy init_mu_q n_agents preset config seed drawn
    = Ok (agents,
          (drawn + draws_before preset seed (Z.to_nat n_agents))%nat) /\
    map Agent.agent_id agents = range n_agents /\
    forall i agent, nth_error agents i = Some agent ->
      Agent.rng agent =
      agent_rng preset seed (Z.of_nat i)
                (drawn + draws_before preset seed i)%nat.
Proof.
  intros Hseed. unfold create_agents, range.
  set (cfg := SociologyConfig.to_agent_config _).
  set (d0 := (match seed with None => 1 | Some _ => 0 end)%nat).
  assert (Hrng : exists g, default_rng os_entropy seed drawn
                           = Ok (g, (drawn + d0)%nat)).
  { unfold default_rng, d0. destruct seed as [s|]; simpl in *.
    - destruct (Z.ltb_spec s 0); [lia|]. rewrite Nat.add_0_r. eauto.
    - rewrite Nat.add_1_r. eauto. }
  destruct Hrng as [g Hg].
  destruct (@create_agents_loop n_agents preset seed (Z.to_nat n_agents) Hseed
              0%nat cfg [] (drawn + d0)%nat)
    as (cfg' & agents & Hrun & Hids & Hrngs).
  exists agents. unfold io_bind at 1. rewrite Hg.
  unfold io_bind, io_ret. rewrite Hrun. simpl.
  split; [|split].
  - do 2 f_equal. unfold draws_before. fold d0. lia.
  - assumption.
  - intros i agent Hnth. rewrite (Hrngs i agent Hnth). simpl.
    f_equal. unfold draws_before. fold d0. lia.
Qed.
End Loop.

(** C8.  For every n_agents >= 0 and every preset (with the default
    arguments config = None and seed = None, and with any configuration
    and any seed numpy accepts), create_agents returns a list of exactly
    n_agents agents whose agent_id fields are 0, 1, ..., n_agents - 1 in
    list order. *)
Theorem create_agents_ids {F : Type} `{Scalar F}
    (os_entropy : nat -> Z)
    (init_mu_q : AgentConfig.t F -> Generator -> belief_array F)
    (n_agents : Z) (preset : SociologyPresets)
    (config : option (SociologyConfig.t F)) (seed : option Z) (drawn : nat) :
  0 <= n_agents ->
  valid_seed seed ->
  exists agents drawn',
    create_agents os_entropy init_mu_q n_agents preset config seed drawn
    = Ok (agents, drawn') /\
    Z.of_nat (length agents) = n_agents /\
    map Agent.agent_id agents = range n_agents.
Proof.
  intros Hn Hseed.
  destruct (@create_agents_run F _ os_entropy init_mu_q n_agents preset config
              seed drawn Hseed) as (agents & Hrun & Hids & _).
  exists agents. eexists. split; [exact Hrun|]. split; [|exact Hids].
  rewrite <- (length_map Agent.agent_id), Hids.
  unfold range. rewrite length_map, length_seq. lia.
Qed.

Lemma create_agents_ids_witness :
  exists agents drawn',
    create_agents (fun k => Z.of_nat k) (fun _ _ => Vec [0%R]) 3 POLARIZATION
                  None None 0%nat
    = Ok (agents, drawn') /\
    Z.of_nat (length agents) = 3 /\
    map Agent.agent_id agents = range 3.
Proof.
  apply (@create_agents_ids R _ (fun k => Z.of_nat k) (fun _ _ => Vec [0%R])
           3 POLARIZATION None None 0%nat).
  - lia.
  - exact I.
Defined.

(** The place, in the entropy pool, of the value agent [i]'s generator
    is built from when the seed is [None] or [0]. *)
Definition entropy_index (preset : SociologyPresets) (seed : option Z)
    (drawn i : nat) : nat :=
  (drawn + draws_before preset seed i + if polarized preset then 1 else 0)%nat.

Lemma agent_rng_cases (os_entropy : nat -> Z) preset seed drawn i :
  agent_rng os_entropy preset seed (Z.of_nat i)
            (drawn + draws_before preset seed i)%nat
  = match seed with
    | Some s =>
        if s =? 0
        then FromEntropy (os_entropy (entropy_index preset seed drawn i))
        else Seeded (s + Z.of_nat i)
    | None => FromEntropy (os_entropy (entropy_index preset seed drawn i))
    end.
Proof.
  unfold agent_rng, agent_seed, entropy_index.
  destruct seed as [s|]; [destruct (s =? 0)|]; reflexivity.
Qed.

(** C9.  create_agents seeds agent i's random source with seed + i only
    when seed is a nonzero integer; when seed is None or 0 the source is
    built unseeded, from fresh entropy of the operating system, so a
    second call with the same arguments (seed = 0 included) can return
    different agents. *)
Theorem create_agents_seeding {F : Type} `{Scalar F}
    (os_entropy : nat -> Z)
    (init_mu_q : AgentConfig.t F -> Generator -> belief_array F)
    (n_agents : Z) (preset : SociologyPresets)
    (config : option (SociologyConfig.t F)) (seed : option Z) (drawn : nat) :
  valid_seed seed ->
  exists agents drawn',
    create_agents os_entropy init_mu_q n_agents preset config seed drawn
    = Ok (agents, drawn') /\
    (forall i agent, nth_error agents i = Some agent ->
       match seed with
       | Some s =>
           if s =? 0
           then Agent.rng agent =
                FromEntropy (os_entropy (entropy_index preset seed drawn i))
           else Agent.rng agent = Seeded (s + Z.of_nat i)
       | None =>
           Agent.rng agent =
           FromEntropy (os_entropy (entropy_index preset seed drawn i))
       end) /\
    (falsy seed = true -> 0 < n_agents ->
     exists os_entropy' agents' drawn'',
       create_agents os_entropy' init_mu_q n_agents preset config seed drawn
       = Ok (agents', drawn'') /\
       agents' <> agents).
Proof.
  intros Hseed.
  destruct (@create_agents_run F _ os_entropy init_mu_q n_agents preset config
              seed drawn Hseed) as (agents & Hrun & Hids & Hrng).
  exists agents. eexists. split; [exact Hrun|]. split.
  - intros i agent Hnth. pose proof (Hrng i agent Hnth) as E.
    rewrite agent_rng_cases in E.
    destruct seed as [s|]; [destruct (s =? 0)|]; exact E.
  - intros Hfalsy Hn.
    set (os' := fun k => os_entropy k + 1).
    destruct (@create_agents_run F _ os' init_mu_q n_agents preset config
                seed drawn Hseed) as (agents' & Hrun' & Hids' & Hrng').
    exists os', agents'. eexists. split; [exact Hrun'|].
    intros Heq. subst agents'.
    assert (Hlen : (0 < length agents)%nat).
    { rewrite <- (length_map Agent.agent_id), Hids.
      unfold range. rewrite length_map, length_seq. lia. }
    destruct agents as [|agent rest]; [simpl in Hlen; lia|].
    pose proof (Hrng 0%nat agent eq_refl) as E.
    pose proof (Hrng' 0%nat agent eq_refl) as E'.
    rewrite agent_rng_cases in E, E'. rewrite E in E'.
    unfold falsy in Hfalsy.
    destruct seed as [s|]; [rewrite Hfalsy in E'|];
      injection E' as E'; unfold os' in E'; lia.
Qed.

Lemma create_agents_seeding_witness :
  exists agents drawn',
    create_agents (fun k => Z.of_nat k) (fun _ _ => Vec [0%R]) 2 NEUTRAL
                  None (Some 0) 0%nat
    = Ok (agents, drawn') /\
    (forall i agent, nth_error agents i = Some agent ->
       match Some 0 with
       | Some s =>
           if s =? 0
           then Agent.rng agent =
                FromEntropy (Z.of_nat (entropy_index NEUTRAL (Some 0) 0 i))
           else Agent.rng agent = Seeded (s + Z.of_nat i)
       | None =>
           Agent.rng agent =
           FromEntropy (Z.of_nat (entropy_index NEUTRAL (Some 0) 0 i))
       end) /\
    (falsy (Some 0) = true -> 0 < 2 ->
     exists os_entropy' agents' drawn'',
       create_agents os_entropy' (fun _ _ => Vec [0%R]) 2 NEUTRAL
                     None (Some 0) 0%nat
       = Ok (agents', drawn'') /\
       agents' <> agents).
Proof.
  apply (@create_agents_seeding R _ (fun k => Z.of_nat k)
           (fun _ _ => Vec [0%R]) 2 NEUTRAL None (Some 0) 0%nat).
  simpl. lia.
Defined.

(** *** The other seeds *)

(** A negative seed is refused by [np.random.default_rng(seed)], the
    first random source the function builds. *)
Lemma create_agents_negative_seed {F : Type} `{Scalar F}
    (os_entropy : nat -> Z)
    (init_mu_q : AgentConfig.t F -> Generator -> belief_array F)
    (n_agents : Z) (preset : SociologyPresets)
    (config : option (SociologyConfig.t F)) (s : Z) (drawn : nat) :
  s < 0 ->
  create_agents os_entropy init_mu_q n_agents preset config (Some s) drawn
  = Raise ValueError.
Proof.
  intros Hs. unfold create_agents, io_bind at 1. unfold default_rng.
  destruct (Z.ltb_spec s 0); [reflexivity|lia].
Qed.

(** With a positive seed the agents do not depend on the entropy pool. *)
Lemma create_agents_seeded_reproducible {F : Type} `{Scalar F}
    (os1 os2 : nat -> Z)
    (init_mu_q : AgentConfig.t F -> Generator -> belief_array F)
    (n_agents : Z) (preset : SociologyPresets)
    (config : option (SociologyConfig.t F)) (s : Z) (d1 d2 : nat)
    (agents1 agents2 : list (Agent.t F)) (d1' d2' : nat) :
  0 < s ->
  create_agents os1 init_mu_q n_agents preset config (Some s) d1
    = Ok (agents1, d1') ->
  create_agents os2 init_mu_q n_agents preset config (Some s) d2
    = Ok (agents2, d2') ->
  map Agent.rng agents1 = map Agent.rng agents2.
Proof.
  intros Hs H1 H2.
  assert (Hseed : valid_seed (Some s)) by (simpl; lia).
  destruct (@create_agents_run F _ os1 init_mu_q n_agents preset config
              (Some s) d1 Hseed) as (a1 & Hrun1 & Hids1 & Hrng1).
  destruct (@create_agents_run F _ os2 init_mu_q n_agents preset config
              (Some s) d2 Hseed) as (a2 & Hrun2 & Hids2 & Hrng2).
  rewrite H1 in Hrun1. rewrite H2 in Hrun2.
  injection Hrun1 as <- _. injection Hrun2 as <- _.
  assert (Hlen : length agents1 = length agents2).
  { rewrite <- (length_map Agent.agent_id agents1), Hids1.
    now rewrite <- (length_map Agent.agent_id agents2), Hids2. }
  apply (nth_error_ext). intros i.
  rewrite !nth_error_map.
  destruct (nth_error agents1 i) as [x|] eqn:E1;
    destruct (nth_error agents2 i) as [y|] eqn:E2; simpl.
  - rewrite (Hrng1 i x E1), (Hrng2 i y E2), !agent_rng_cases.
    destruct (Z.eqb_spec s 0); [lia|reflexivity].
  - apply nth_error_None in E2.
    assert (nth_error agents1 i <> None) by congruence.
    apply nth_error_Some in H0. lia.
  - apply nth_error_None in E1.
    assert (nth_error agents2 i <> None) by congruence.
    apply nth_error_Some in H0. lia.
  - reflexivity.
Qed.
End CreateAgentsSpec.

(* ================================================================= *)
(** ** compute_polarization *)

Module PolarizationSpec.
Import RealSums epistemic_inertia.
Local Open Scope R_scope.

(** The agents' averaged beliefs, the rows of [beliefs]. *)
Definition belief_rows (system : MultiAgentSystem.t R) : list (list R) :=
  map (fun agent => mean_over_leading_axes (Agent.mu_q agent))
      (MultiAgentSystem.agents system).

(** All agents hold beliefs of one dimension K, so that [np.array] can
    stack them. *)
Definition uniform_dimension (system : MultiAgentSystem.t R) : Prop :=
  exists K, Forall (fun row => length row = K) (belief_rows system).

Lemma array_uniform (rows : list (list R)) K :
  Forall (fun row => length row = K) rows -> np.array rows = Ok rows.
Proof.
  intros Hrows. unfold np.array.
  assert (E : forallb (fun r => Nat.eqb (length r) (np.ncols rows)) rows = true).
  { apply forallb_forall. intros r Hr. apply Nat.eqb_eq.
    rewrite Forall_forall in Hrows. rewrite (Hrows r Hr).
    destruct rows as [|r0 rest]; [easy|]. simpl.
    symmetry. apply Hrows. now left. }
  now rewrite E.
Qed.

Lemma norm_nonneg (v : list R) : 0 <= np.norm v.
Proof. unfold np.norm. apply sqrt_pos. Qed.

Lemma distances_nonneg (beliefs : list (list R)) :
  Forall (fun x => 0 <= x) (pairwise_distances beliefs).
Proof.
  unfold pairwise_distances. apply Forall_forall. intros x Hx.
  apply in_flat_map in Hx as (i & _ & Hx).
  apply in_map_iff in Hx as (j & <- & _). apply norm_nonneg.
Qed.

Lemma length_pos_IZR {A} (l : list A) :
  length l <> 0%nat -> 0 < IZR (Z.of_nat (length l)).
Proof. intros Hl. apply IZR_lt. lia. Qed.

Lemma mean_nonneg (v : list R) :
  v <> [] -> Forall (fun x => 0 <= x) v -> 0 <= np.mean v.
Proof.
  intros Hne Hv. unfold np.mean.
  apply Rmult_le_pos; [now apply sum_nonneg|].
  apply Rlt_le, Rinv_0_lt_compat, length_pos_IZR.
  now destruct v.
Qed.

Lemma var_nonneg (v : list R) : v <> [] -> 0 <= np.var v.
Proof.
  intros Hne. unfold np.var. apply mean_nonneg.
  - now destruct v.
  - apply Forall_forall. intros x Hx.
    apply in_map_iff in Hx as (y & <- & _).
    apply (Rle_0_sqr (y - np.mean v)).
Qed.

Lemma polarization_ratio_nonneg (distances : list R) :
  distances <> [] -> Forall (fun x => 0 <= x) distances ->
  0 <= fdiv (np.var distances) (fadd (np.mean distances) (ratio 1 100000000)).
Proof.
  intros Hne Hd.
  pose proof (var_nonneg Hne). pose proof (mean_nonneg Hne Hd).
  unfold ratio. cbn [fdiv fadd fofZ RScalar].
  apply Rmult_le_pos; [assumption|].
  apply Rlt_le, Rinv_0_lt_compat. lra.
Qed.

Lemma few_rows_no_distances (beliefs : list (list R)) :
  (length beliefs < 2)%nat -> pairwise_distances beliefs = [].
Proof.
  intros Hlen. destruct beliefs as [|b0 [|b1 rest]]; try reflexivity.
  simpl in Hlen. lia.
Qed.

(** Exact real arithmetic.  For every system with fewer than two agents
    compute_polarization returns exactly 0.0; for every system the value
    it returns is non-negative, and it does return one whenever the
    agents' beliefs have one dimension. *)
Theorem compute_polarization_spec (system : MultiAgentSystem.t R) :
  ((MultiAgentSystem.n_agents system < 2)%nat ->
   compute_polarization system = Ok 0) /\
  (forall v, compute_polarization system = Ok v -> 0 <= v) /\
  (uniform_dimension system ->
   exists v, compute_polarization system = Ok v /\ 0 <= v).
Proof.
  assert (Hval : forall beliefs v,
    (if Nat.eqb (length (pairwise_distances beliefs)) 0
     then Ok f0
     else Ok (fdiv (np.var (pairwise_distances beliefs))
                   (fadd (np.mean (pairwise_distances beliefs))
                         (ratio 1 100000000)))) = Ok v ->
    0 <= v).
  { intros beliefs v Hv.
    destruct (Nat.eqb_spec (length (pairwise_distances beliefs)) 0) as [E|E];
      injection Hv as <-.
    - simpl. lra.
    - apply polarization_ratio_nonneg.
      + intros Hnil. now rewrite Hnil in E.
      + apply distances_nonneg. }
  unfold compute_polarization. fold (belief_rows system).
  split; [|split].
  - intros Hn. unfold MultiAgentSystem.n_agents in Hn.
    assert (Hrows : (length (belief_rows system) < 2)%nat)
      by (unfold belief_rows; now rewrite length_map).
    assert (Harr : np.array (belief_rows system) = Ok (belief_rows system)).
    { destruct (belief_rows system) as [|r0 [|r1 rest]].
      - reflexivity.
      - unfold np.array. simpl. now rewrite Nat.eqb_refl.
      - simpl in Hrows. lia. }
    rewrite Harr. cbn [bind].
    now rewrite (few_rows_no_distances _ Hrows).
  - intros v. destruct (np.array (belief_rows system)) as [beliefs|e];
      cbn [bind]; [apply Hval | discriminate].
  - intros [K HK]. rewrite (array_uniform HK). cbn [bind].
    destruct (Nat.eqb (length (pairwise_distances (belief_rows system))) 0)
      eqn:E.
    + exists 0. split; [reflexivity|lra].
    + eexists. split; [reflexivity|].
      apply (Hval (belief_rows system)). now rewrite E.
Qed.

(** *** One agent; two agents at distance 5 *)

Definition agent_at (i : Z) (mu : list R) : Agent.t R :=
  Agent.mk i (AgentConfig.mk 2 0 1 0 0) (Seeded i) 2 (Vec mu).

Definition lone_agent : MultiAgentSystem.t R :=
  MultiAgentSystem.mk [agent_at 0 [1; 2]] (SystemConfig.mk 1 0 0 1).

Definition two_apart : MultiAgentSystem.t R :=
  MultiAgentSystem.mk [agent_at 0 [0; 0]; agent_at 1 [3; 4]]
                      (SystemConfig.mk 1 0 0 1).

Lemma compute_polarization_spec_witness :
  compute_polarization lone_agent = Ok 0 /\
  exists v, compute_polarization two_apart = Ok v /\ 0 <= v.
Proof.
  split.
  - apply (proj1 (compute_polarization_spec lone_agent)). exact (le_n 2).
  - apply (proj2 (proj2 (compute_polarization_spec two_apart))).
    exists 2%nat. repeat constructor.
Defined.

(** The value on fewer than two agents is the literal [0.0] in every
    number model, IEEE doubles included. *)
Lemma compute_polarization_few_agents {F : Type} `{Scalar F}
    (system : MultiAgentSystem.t F) :
  (MultiAgentSystem.n_agents system < 2)%nat ->
  compute_polarization system = Ok f0.
Proof.
  unfold compute_polarization, MultiAgentSystem.n_agents.
  destruct (MultiAgentSystem.agents system) as [|a0 [|a1 rest]]; intros Hn.
  - reflexivity.
  - unfold np.array. simpl. now rewrite Nat.eqb_refl.
  - simpl in Hn. lia.
Qed.
End PolarizationSpec.

(* ================================================================= *)
(** * Further properties *)

(** ** math_utils: shapes *)

Module MathUtilsShapes.
Import ArrayFacts.
Section Generic.
Context {F : Type} `{Scalar F}.

Implicit Types (M : list (list F)) (v : list F).

Lemma swapaxes_shape r c M :
  has_shape r c M -> 0 < r -> has_shape c r (np.swapaxes M).
Proof.
  intros HM Hr. unfold np.swapaxes.
  rewrite (ncols_shape HM Hr), (nrows_shape HM). apply has_shape_tabulate.
Qed.

Lemma broadcast_dim_mismatch a b :
  a <> b -> a <> 1 -> b <> 1 -> np.broadcast_dim a b = Raise ValueError.
Proof.
  intros Hab Ha Hb. unfold np.broadcast_dim.
  destruct (Nat.eqb_spec a b); [contradiction|].
  destruct (Nat.eqb_spec a 1); [contradiction|].
  destruct (Nat.eqb_spec b 1); [contradiction|]. reflexivity.
Qed.

(** A 2-D array that is not square, with at least two rows and two
    columns, cannot be added to its transpose: symmetrize and ensure_spd
    raise ValueError. *)
Theorem non_square_raises r c M eps :
  has_shape r c M -> r <> c -> 2 <= r -> 2 <= c ->
  math_utils.symmetrize M = Raise ValueError /\
  math_utils.ensure_spd M eps = Raise ValueError.
Proof.
  intros HM Hrc Hr Hc.
  assert (Hsym : math_utils.symmetrize M = Raise ValueError).
  { unfold math_utils.symmetrize, np.add, np.zip_with.
    assert (HT : has_shape c r (np.swapaxes M)) by (apply swapaxes_shape; [assumption|lia]).
    rewrite (nrows_shape HM), (nrows_shape HT).
    rewrite broadcast_dim_mismatch by lia. reflexivity. }
  split; [assumption|].
  unfold math_utils.ensure_spd. now rewrite Hsym.
Qed.

(** A single row of n >= 2 numbers is not refused: broadcasting the
    1-by-n row against its n-by-1 transpose makes symmetrize return the
    n-by-n array of the means (v[i] + v[j]) / 2. *)
Theorem symmetrize_row_vector v n :
  length v = n -> 2 <= n ->
  math_utils.symmetrize [v] =
  Ok (np.tabulate n n (fun i j =>
        fmul (ratio 1 2) (fadd (nth j v f0) (nth i v f0)))).
Proof.
  intros Hlen Hn.
  assert (HM : has_shape 1 n [v]) by (split; [reflexivity | repeat constructor; assumption]).
  assert (HT : has_shape n 1 (np.swapaxes [v])) by (apply swapaxes_shape; [assumption|lia]).
  unfold math_utils.symmetrize, np.add, np.zip_with.
  rewrite (nrows_shape HM), (nrows_shape HT).
  rewrite (ncols_shape HM), (ncols_shape HT) by lia.
  assert (E1 : np.broadcast_dim 1 n = Ok n).
  { unfold np.broadcast_dim. destruct (Nat.eqb_spec 1 n); [lia|]. reflexivity. }
  assert (E2 : np.broadcast_dim n 1 = Ok n).
  { unfold np.broadcast_dim. destruct (Nat.eqb_spec n 1); [lia|].
    reflexivity. }
  rewrite E1, E2. cbn [bind]. f_equal.
  unfold np.scale. rewrite map_map_tabulate.
  apply tabulate_ext. intros i j Hi Hj. f_equal.
  change (np.bidx 1 i) with 0. change (np.bidx 1 j) with 0.
  rewrite !bidx_lt by assumption. f_equal.
  unfold np.swapaxes. simpl np.ncols. simpl np.nrows. rewrite Hlen.
  rewrite item_tabulate by lia. reflexivity.
Qed.

End Generic.

Lemma non_square_raises_witness :
  @math_utils.symmetrize R _ [[1; 2; 3]; [4; 5; 6]]%R = Raise ValueError /\
  @math_utils.ensure_spd R _ [[1; 2; 3]; [4; 5; 6]]%R 1%R = Raise ValueError.
Proof.
  apply (@non_square_raises R _ 2 3 [[1; 2; 3]; [4; 5; 6]]%R 1%R).
  - split; [reflexivity|]. repeat constructor.
  - discriminate.
  - lia.
  - lia.
Defined.

Lemma symmetrize_row_vector_witness :
  @math_utils.symmetrize R _ [[1; 2; 3]]%R =
  Ok (np.tabulate 3 3 (fun i j =>
        fmul (ratio 1 2) (fadd (nth j [1; 2; 3]%R f0) (nth i [1; 2; 3]%R f0)))).
Proof.
  apply (@symmetrize_row_vector R _ [1; 2; 3]%R 3).
  - reflexivity.
  - lia.
Defined.
End MathUtilsShapes.

(** ** math_utils over the reals: composition *)

Module MathUtilsAlgebra.
Import ArrayFacts RealSums MathUtilsSpec SpdSpec.
Local Open Scope R_scope.

Implicit Types (M Sigma B : list (list R)).

(** symmetrize is idempotent: applied to its own result it changes
    nothing. *)
Theorem symmetrize_idempotent (n : nat) M S :
  square n M ->
  math_utils.symmetrize M = Ok S ->
  math_utils.symmetrize S = Ok S.
Proof.
  intros HM HS. rewrite (symmetrize_square HM) in HS.
  injection HS as <-.
  set (S := np.tabulate n n _).
  assert (HSq : square n S) by apply has_shape_tabulate.
  rewrite (symmetrize_square HSq). f_equal.
  apply tabulate_ext. intros i j Hi Hj.
  unfold S. rewrite !item_tabulate by assumption.
  unfold ratio. simpl. lra.
Qed.

Lemma symmetrize_idempotent_witness :
  math_utils.symmetrize
    [[1 / 2 * (1 + 1); 1 / 2 * (2 + 4)]; [1 / 2 * (4 + 2); 1 / 2 * (3 + 3)]]
  = Ok [[1 / 2 * (1 + 1); 1 / 2 * (2 + 4)]; [1 / 2 * (4 + 2); 1 / 2 * (3 + 3)]].
Proof.
  apply (@symmetrize_idempotent 2 [[1; 2]; [4; 3]]).
  - split; [reflexivity|]. repeat constructor.
  - reflexivity.
Defined.

(** On a matrix that is already symmetric, ensure_spd adds eps to every
    diagonal entry and leaves the other entries as they are. *)
Theorem ensure_spd_symmetric_input (n : nat) Sigma (eps : R) :
  square n Sigma -> symmetric Sigma ->
  exists B,
    math_utils.ensure_spd Sigma eps = Ok B /\
    forall i j, (i < n)%nat -> (j < n)%nat ->
      np.item B i j = if Nat.eqb i j then np.item Sigma i i + eps
                      else np.item Sigma i j.
Proof.
  intros HS Hsym. eexists. split; [apply (ensure_spd_square eps HS)|].
  intros i j Hi Hj. rewrite item_tabulate by assumption.
  rewrite (symmetric_item HS Hsym Hj Hi).
  unfold ratio. simpl.
  destruct (Nat.eqb_spec i j) as [->|_]; lra.
Qed.

Lemma example_symmetric : symmetric [[2; 1]; [1; 3]].
Proof. reflexivity. Qed.

Lemma ensure_spd_symmetric_input_witness :
  exists B,
    math_utils.ensure_spd [[2; 1]; [1; 3]] (1 / 10) = Ok B /\
    forall i j, (i < 2)%nat -> (j < 2)%nat ->
      np.item B i j = if Nat.eqb i j then np.item [[2; 1]; [1; 3]] i i + 1 / 10
                      else np.item [[2; 1]; [1; 3]] i j.
Proof.
  apply (@ensure_spd_symmetric_input 2 [[2; 1]; [1; 3]] (1 / 10)).
  - split; [reflexivity|]. repeat constructor.
  - exact example_symmetric.
Defined.

(** Regularising twice is regularising once with the sum of the two
    constants. *)
Theorem ensure_spd_twice (n : nat) Sigma (eps1 eps2 : R) B :
  square n Sigma ->
  math_utils.ensure_spd Sigma eps1 = Ok B ->
  math_utils.ensure_spd B eps2 = math_utils.ensure_spd Sigma (eps1 + eps2).
Proof.
  intros HS HB. rewrite (ensure_spd_square eps1 HS) in HB.
  injection HB as <-.
  set (B := np.tabulate n n _).
  assert (HBq : square n B) by apply has_shape_tabulate.
  rewrite (ensure_spd_square eps2 HBq), (ensure_spd_square (eps1 + eps2) HS).
  f_equal. apply tabulate_ext. intros i j Hi Hj.
  unfold B. rewrite !item_tabulate by assumption.
  rewrite (Nat.eqb_sym j i). unfold ratio. simpl.
  destruct (Nat.eqb i j); lra.
Qed.

Lemma ensure_spd_twice_witness :
  math_utils.ensure_spd
    [[1 / 2 * (2 + 2) + 1 * 1; 1 / 2 * (1 + 0) + 1 * 0];
     [1 / 2 * (0 + 1) + 1 * 0; 1 / 2 * (2 + 2) + 1 * 1]] 2
  = math_utils.ensure_spd [[2; 1]; [0; 2]] (1 + 2).
Proof.
  apply (@ensure_spd_twice 2 [[2; 1]; [0; 2]] 1 2).
  - split; [reflexivity|]. repeat constructor.
  - reflexivity.
Defined.

(** ensure_spd shifts the quadratic form by eps times the squared norm:
    x^T B x = x^T Sigma x + eps x^T x for every vector x. *)
Theorem ensure_spd_quadratic_form (n : nat) Sigma (eps : R) B (x : list R) :
  square n Sigma ->
  math_utils.ensure_spd Sigma eps = Ok B ->
  quadratic_form n B x = quadratic_form n Sigma x + eps * norm2 n x.
Proof.
  intros HS HB. rewrite (ensure_spd_square eps HS) in HB.
  injection HB as <-. apply quadratic_form_ensure_spd.
Qed.

Lemma ensure_spd_quadratic_form_witness :
  quadratic_form 1 [[1 / 2 * (-1 + -1) + 1 / 1000000 * 1]] [3]
  = quadratic_form 1 [[-1]] [3] + 1 / 1000000 * norm2 1 [3].
Proof.
  apply (@ensure_spd_quadratic_form 1 [[-1]] (1 / 1000000)).
  - split; [reflexivity|]. repeat constructor.
  - reflexivity.
Defined.
End MathUtilsAlgebra.

(** ** math_utils on IEEE-754 doubles: exact symmetry *)

Module Float64Symmetry.
Import ArrayFacts SpecFloat Float64.

(** Rounded addition of doubles is commutative. *)
Lemma fadd_comm (x y : float64) : fadd x y = fadd y x.
Proof.
  destruct x as [sx|sx| |sx mx ex], y as [sy|sy| |sy my ey];
    try reflexivity;
    try (destruct sx, sy; reflexivity).
  cbn [fadd Float64Scalar SFadd].
  rewrite (Z.min_comm ey ex). f_equal. apply Z.add_comm.
Qed.

(** In doubles the result of symmetrize on a square array is symmetric
    bit for bit, rounding included: entries (i,j) and (j,i) are the same
    double. *)
Theorem symmetrize_exactly_symmetric (n : nat) (M : list (list float64)) :
  square n M ->
  exists S,
    math_utils.symmetrize M = Ok S /\
    square n S /\
    np.swapaxes S = S.
Proof.
  intros HM. eexists. split; [apply (symmetrize_square HM)|].
  split; [apply has_shape_tabulate|].
  rewrite (swapaxes_square (has_shape_tabulate n n _)).
  apply tabulate_ext. intros i j Hi Hj.
  rewrite item_tabulate by assumption.
  now rewrite fadd_comm.
Qed.

Lemma symmetrize_exactly_symmetric_witness :
  exists S,
    math_utils.symmetrize [[of_Z 1; of_Z 2]; [inf; nan]] = Ok S /\
    square 2 S /\
    np.swapaxes S = S.
Proof.
  apply (@symmetrize_exactly_symmetric 2 [[of_Z 1; of_Z 2]; [inf; nan]]).
  split; [reflexivity|]. repeat constructor.
Defined.

(** In doubles the result of ensure_spd on a square array is symmetric
    bit for bit, whatever eps is. *)
Theorem ensure_spd_exactly_symmetric
    (n : nat) (Sigma : list (list float64)) (eps : float64) :
  square n Sigma ->
  exists B,
    math_utils.ensure_spd Sigma eps = Ok B /\
    square n B /\
    np.swapaxes B = B.
Proof.
  intros HS. eexists. split; [apply (ensure_spd_square eps HS)|].
  split; [apply has_shape_tabulate|].
  rewrite (swapaxes_square (has_shape_tabulate n n _)).
  apply tabulate_ext. intros i j Hi Hj.
  rewrite item_tabulate by assumption.
  rewrite (fadd_comm (np.item Sigma j i)), (Nat.eqb_sym j i). reflexivity.
Qed.

Lemma ensure_spd_exactly_symmetric_witness :
  exists B,
    math_utils.ensure_spd [[of_Z 1; of_Z 2]; [of_Z 5; of_Z 3]]
                          math_utils.default_eps = Ok B /\
    square 2 B /\
    np.swapaxes B = B.
Proof.
  apply (@ensure_spd_exactly_symmetric 2 [[of_Z 1; of_Z 2]; [of_Z 5; of_Z 3]]
           math_utils.default_eps).
  split; [reflexivity|]. repeat constructor.
Defined.
End Float64Symmetry.

(** ** More sums of reals *)

Module MoreSums.
Import RealSums.
Local Open Scope R_scope.

Lemma sum_map_mul_r (l : list R) (c : R) :
  np.sum (map (fun x => x * c) l) = np.sum l * c.
Proof.
  induction l as [|x l IH]; simpl.
  - rewrite sum_nil. lra.
  - rewrite !sum_cons, IH. lra.
Qed.

Lemma sum_all_equal (l : list R) (c : R) :
  Forall (fun x => x = c) l -> np.sum l = INR (length l) * c.
Proof.
  induction 1 as [|x l Hx _ IH].
  - rewrite sum_nil. simpl. lra.
  - rewrite sum_cons, IH, Hx. cbn [length]. rewrite S_INR. lra.
Qed.

Lemma sum_all_zero (l : list R) :
  Forall (fun x => x = 0) l -> np.sum l = 0.
Proof. intros Hl. rewrite (sum_all_equal Hl). lra. Qed.

Lemma INR_IZR_of_nat (n : nat) : IZR (Z.of_nat n) = INR n.
Proof. symmetry. apply INR_IZR_INZ. Qed.
End MoreSums.

(** ** compute_social_influence_matrix: order, shifts and small systems *)

Module SoftmaxOrder.
Import ArrayFacts RealSums MoreSums SoftmaxFacts SoftmaxSpec epistemic_inertia.
Local Open Scope R_scope.

Implicit Types (kl : list (list R)) (kappa : R).

(** At a positive temperature a closer agent never gets less attention:
    if KL_ij <= KL_ik then beta_ik <= beta_ij. *)
Theorem social_influence_monotone
    (compute_kl_matrix : MultiAgentSystem.t R -> kl_mode -> result (list (list R)))
    (system : MultiAgentSystem.t R) (kl : list (list R)) (n i j k : nat) :
  compute_kl_matrix system mode_belief = Ok kl ->
  square n kl ->
  0 < SystemConfig.kappa_beta (MultiAgentSystem.config system) ->
  (i < n)%nat -> (j < n)%nat -> (k < n)%nat ->
  np.item kl i j <= np.item kl i k ->
  exists beta,
    compute_social_influence_matrix compute_kl_matrix system = Ok beta /\
    np.item beta i k <= np.item beta i j.
Proof.
  intros Hkl Hsq Hkappa Hi Hj Hk Hle.
  destruct (social_influence_rows _ _ Hkl Hsq) as (beta & Hbeta & _ & Hrows).
  exists beta. split; [assumption|].
  destruct (Hrows i Hi) as [Hentries _].
  destruct (Hentries j Hj) as [_ ->]. destruct (Hentries k Hk) as [_ ->].
  set (kappa := SystemConfig.kappa_beta _) in *.
  apply Rmult_le_compat_r.
  - apply Rlt_le, Rinv_0_lt_compat, row_total_pos. lia.
  - rewrite !weight_R.
    assert (Harg : - np.item kl i k / kappa <= - np.item kl i j / kappa).
    { apply Rmult_le_compat_r; [|lra].
      apply Rlt_le, Rinv_0_lt_compat. assumption. }
    destruct Harg as [Hlt|Heq].
    + apply Rlt_le, exp_increasing, Hlt.
    + rewrite Heq. lra.
Qed.

Definition near_far_kl (system : MultiAgentSystem.t R) (mode : kl_mode)
    : result (list (list R)) :=
  Ok [[0; 3]; [1; 0]].

Lemma social_influence_monotone_witness :
  exists beta,
    compute_social_influence_matrix near_far_kl (two_agents 2) = Ok beta /\
    np.item beta 0 1 <= np.item beta 0 0.
Proof.
  apply (@social_influence_monotone near_far_kl (two_agents 2)
           [[0; 3]; [1; 0]] 2 0 0 1).
  - reflexivity.
  - split; [reflexivity|]. repeat constructor.
  - simpl. lra.
  - lia.
  - lia.
  - lia.
  - unfold np.item. simpl. lra.
Defined.

Lemma weight_shift kl kl' kappa (c : R) i j :
  np.item kl' i j = np.item kl i j + c ->
  weight kl' kappa i j = weight kl kappa i j * exp (- c / kappa).
Proof.
  intros E. rewrite !weight_R, E, <- exp_plus. f_equal.
  unfold Rdiv. ring.
Qed.

(** Adding a constant c_i to every entry of row i of the KL matrix leaves
    the returned weights unchanged (this is why subtracting the row
    maximum before exponentiating would be harmless). *)
Theorem social_influence_shift_invariant
    (compute_kl_matrix compute_kl_matrix' :
       MultiAgentSystem.t R -> kl_mode -> result (list (list R)))
    (system : MultiAgentSystem.t R) (kl kl' : list (list R)) (n : nat)
    (c : nat -> R) :
  compute_kl_matrix system mode_belief = Ok kl ->
  compute_kl_matrix' system mode_belief = Ok kl' ->
  square n kl -> square n kl' ->
  (forall i j, (i < n)%nat -> (j < n)%nat ->
     np.item kl' i j = np.item kl i j + c i) ->
  SystemConfig.kappa_beta (MultiAgentSystem.config system) <> 0 ->
  compute_social_influence_matrix compute_kl_matrix' system =
  compute_social_influence_matrix compute_kl_matrix system.
Proof.
  intros Hkl Hkl' Hsq Hsq' Hshift _.
  rewrite (social_influence_square _ _ Hkl Hsq).
  rewrite (social_influence_square _ _ Hkl' Hsq').
  f_equal. apply tabulate_ext. intros i j Hi Hj. cbn zeta.
  set (kappa := SystemConfig.kappa_beta _).
  assert (Htot : row_total n kl' kappa i
                 = row_total n kl kappa i * exp (- c i / kappa)).
  { unfold row_total. rewrite <- sum_map_mul_r, map_map.
    f_equal. apply map_seq_ext. intros k Hk.
    apply weight_shift, Hshift; lia. }
  rewrite Htot, (@weight_shift kl kl' kappa (c i) i j (Hshift i j Hi Hj)).
  pose proof (exp_pos (- c i / kappa)).
  pose proof (row_total_pos kl kappa i (n := n)).
  cbn [fdiv RScalar]. field. split; [|lra].
  assert (0 < row_total n kl kappa i) by (apply H0; lia). lra.
Qed.

Definition near_far_kl_shifted (system : MultiAgentSystem.t R) (mode : kl_mode)
    : result (list (list R)) :=
  Ok [[0 + 5; 3 + 5]; [1 + 5; 0 + 5]].

Lemma social_influence_shift_invariant_witness :
  compute_social_influence_matrix near_far_kl_shifted (two_agents 2) =
  compute_social_influence_matrix near_far_kl (two_agents 2).
Proof.
  apply (@social_influence_shift_invariant near_far_kl near_far_kl_shifted
           (two_agents 2) [[0; 3]; [1; 0]]
           [[0 + 5; 3 + 5]; [1 + 5; 0 + 5]] 2 (fun _ => 5)).
  - reflexivity.
  - reflexivity.
  - split; [reflexivity|]. repeat constructor.
  - split; [reflexivity|]. repeat constructor.
  - intros i j Hi Hj.
    destruct i as [|[|i]]; [| |lia]; destruct j as [|[|j]]; [| |lia| | |lia];
      reflexivity.
  - simpl. lra.
Defined.

(** When agent i is equally far from every agent (all entries of row i of
    the KL matrix are equal), it attends uniformly: beta_ij = 1/n. *)
Theorem social_influence_uniform_row
    (compute_kl_matrix : MultiAgentSystem.t R -> kl_mode -> result (list (list R)))
    (system : MultiAgentSystem.t R) (kl : list (list R)) (n i : nat) (a : R) :
  compute_kl_matrix system mode_belief = Ok kl ->
  square n kl ->
  SystemConfig.kappa_beta (MultiAgentSystem.config system) <> 0 ->
  (i < n)%nat ->
  (forall j, (j < n)%nat -> np.item kl i j = a) ->
  exists beta,
    compute_social_influence_matrix compute_kl_matrix system = Ok beta /\
    forall j, (j < n)%nat -> np.item beta i j = 1 / INR n.
Proof.
  intros Hkl Hsq _ Hi Hrow.
  destruct (social_influence_rows _ _ Hkl Hsq) as (beta & Hbeta & _ & Hrows).
  exists beta. split; [assumption|]. intros j Hj.
  destruct (Hrows i Hi) as [Hentries _].
  destruct (Hentries j Hj) as [_ ->].
  set (kappa := SystemConfig.kappa_beta _) in *.
  set (e := exp (- a / kappa)).
  assert (Hw : forall k, (k < n)%nat -> weight kl kappa i k = e).
  { intros k Hk. rewrite weight_R, (Hrow k Hk). reflexivity. }
  assert (Htot : row_total n kl kappa i = INR n * e).
  { unfold row_total.
    rewrite (sum_all_equal (c := e)).
    - now rewrite length_map, length_seq.
    - apply Forall_forall. intros x Hx.
      apply in_map_iff in Hx as (k & <- & Hk). apply in_seq in Hk.
      apply Hw. lia. }
  rewrite Htot, (Hw j Hj).
  assert (0 < e) by apply exp_pos.
  assert (0 < INR n) by (apply lt_0_INR; lia).
  field. split; lra.
Qed.

Lemma social_influence_uniform_row_witness :
  exists beta,
    compute_social_influence_matrix zero_kl (two_agents 2) = Ok beta /\
    forall j, (j < 2)%nat -> np.item beta 0 j = 1 / INR 2.
Proof.
  apply (@social_influence_uniform_row zero_kl (two_agents 2)
           [[0; 0]; [0; 0]] 2 0 0).
  - reflexivity.
  - split; [reflexivity|]. repeat constructor.
  - simpl. lra.
  - lia.
  - intros j Hj. destruct j as [|[|j]]; [reflexivity|reflexivity|lia].
Defined.

(** A system with a single agent gives that agent the whole attention:
    the result is [[1]], whatever the agent's KL entry is. *)
Theorem social_influence_single_agent
    (compute_kl_matrix : MultiAgentSystem.t R -> kl_mode -> result (list (list R)))
    (system : MultiAgentSystem.t R) (a : R) :
  compute_kl_matrix system mode_belief = Ok [[a]] ->
  SystemConfig.kappa_beta (MultiAgentSystem.config system) <> 0 ->
  compute_social_influence_matrix compute_kl_matrix system = Ok [[1]].
Proof.
  intros Hkl _.
  assert (Hsq : square 1 [[a]]) by (split; [reflexivity | repeat constructor]).
  rewrite (social_influence_square _ _ Hkl Hsq). f_equal.
  unfold np.tabulate, row_total, np.sum. simpl. do 2 f_equal.
  pose proof (weight_pos [[a]]
                (SystemConfig.kappa_beta (MultiAgentSystem.config system)) 0 0)
    as Hpos.
  rewrite weight_R in Hpos.
  field. lra.
Qed.

Definition lone_kl (system : MultiAgentSystem.t R) (mode : kl_mode)
    : result (list (list R)) :=
  Ok [[7]].

Definition one_agent : MultiAgentSystem.t R :=
  MultiAgentSystem.mk [example_agent 0] (SystemConfig.mk 1 0 0 2).

Lemma social_influence_single_agent_witness :
  compute_social_influence_matrix lone_kl one_agent = Ok [[1]].
Proof.
  apply (@social_influence_single_agent lone_kl one_agent 7).
  - reflexivity.
  - simpl. lra.
Defined.
End SoftmaxOrder.

(** ** compute_polarization: when the score is zero, and when it fails *)

Module PolarizationCases.
Import RealSums MoreSums PolarizationSpec epistemic_inertia.
Local Open Scope R_scope.

Lemma mean_all_equal (l : list R) (d : R) :
  l <> [] -> Forall (fun x => x = d) l -> np.mean l = d.
Proof.
  intros Hne Hl. unfold np.mean. rewrite (sum_all_equal Hl).
  cbn [fdiv fofZ RScalar]. rewrite INR_IZR_of_nat.
  assert (0 < INR (length l)).
  { apply lt_0_INR. destruct l; [congruence | simpl; lia]. }
  field. lra.
Qed.

Lemma var_all_equal (l : list R) (d : R) :
  l <> [] -> Forall (fun x => x = d) l -> np.var l = 0.
Proof.
  intros Hne Hl. unfold np.var. rewrite (mean_all_equal Hne Hl).
  apply mean_all_equal.
  - now destruct l.
  - apply Forall_forall. intros y Hy.
    apply in_map_iff in Hy as (x & <- & Hx).
    rewrite Forall_forall in Hl. rewrite (Hl x Hx).
    cbn [fmul fsub RScalar]. ring.
Qed.

(** When all pairwise distances are equal the score is zero. *)
Lemma score_all_equal (distances : list R) (d : R) :
  Forall (fun x => x = d) distances ->
  (if Nat.eqb (length distances) 0 then Ok f0
   else Ok (fdiv (np.var distances)
                 (fadd (np.mean distances) (ratio 1 100000000)))) = Ok 0.
Proof.
  intros Hd. destruct distances as [|x rest]; [reflexivity|].
  cbn [length Nat.eqb]. rewrite (var_all_equal (l := x :: rest) (d := d));
    [|discriminate|assumption].
  f_equal. cbn [fdiv RScalar]. unfold Rdiv. ring.
Qed.

(** With exactly two agents there is one distance only, its variance is
    zero, and the polarization score is 0 however far apart the two
    beliefs are. *)
Theorem compute_polarization_two_agents
    (system : MultiAgentSystem.t R) (a b : Agent.t R) :
  MultiAgentSystem.agents system = [a; b] ->
  length (mean_over_leading_axes (Agent.mu_q a))
  = length (mean_over_leading_axes (Agent.mu_q b)) ->
  compute_polarization system = Ok 0.
Proof.
  intros Hagents Hlen. unfold compute_polarization. rewrite Hagents.
  cbn [map].
  rewrite (array_uniform (K := length (mean_over_leading_axes (Agent.mu_q a)))).
  2:{ repeat constructor. now rewrite Hlen. }
  cbn [bind].
  apply (score_all_equal
           (d := np.norm (np.subtract (mean_over_leading_axes (Agent.mu_q a))
                                      (mean_over_leading_axes (Agent.mu_q b))))).
  repeat constructor.
Qed.

Lemma compute_polarization_two_agents_witness :
  compute_polarization two_apart = Ok 0.
Proof.
  apply (@compute_polarization_two_agents two_apart
           (agent_at 0 [0; 0]) (agent_at 1 [3; 4])).
  - reflexivity.
  - reflexivity.
Defined.

Lemma subtract_self (v : list R) :
  Forall (fun x => x = 0) (np.subtract v v).
Proof.
  unfold np.subtract. apply Forall_forall. intros x Hx.
  apply in_map_iff in Hx as (k & <- & _). cbn [fsub RScalar]. ring.
Qed.

Lemma norm_subtract_self (v : list R) : np.norm (np.subtract v v) = 0.
Proof.
  unfold np.norm. rewrite sum_all_zero.
  - apply sqrt_0.
  - apply Forall_forall. intros y Hy.
    apply in_map_iff in Hy as (x & <- & Hx).
    pose proof (subtract_self v) as Hz. rewrite Forall_forall in Hz.
    rewrite (Hz x Hx). cbn [fmul RScalar]. ring.
Qed.

(** Consensus scores zero: when every agent holds the same (averaged)
    belief, the polarization is 0. *)
Theorem compute_polarization_consensus
    (system : MultiAgentSystem.t R) (v : list R) :
  Forall (fun agent => mean_over_leading_axes (Agent.mu_q agent) = v)
         (MultiAgentSystem.agents system) ->
  compute_polarization system = Ok 0.
Proof.
  intros Hall. unfold compute_polarization. fold (belief_rows system).
  assert (Hrows : Forall (fun row => row = v) (belief_rows system)).
  { unfold belief_rows. apply Forall_forall. intros row Hrow.
    apply in_map_iff in Hrow as (agent & <- & Hin).
    rewrite Forall_forall in Hall. now apply Hall. }
  rewrite (array_uniform (K := length v)).
  2:{ eapply Forall_impl; [|exact Hrows]. now intros row ->. }
  cbn [bind]. apply (score_all_equal (d := 0)).
  unfold pairwise_distances. apply Forall_forall. intros x Hx.
  apply in_flat_map in Hx as (i & Hi & Hx).
  apply in_map_iff in Hx as (j & <- & Hj).
  apply in_seq in Hi. apply in_seq in Hj.
  rewrite Forall_forall in Hrows.
  rewrite (Hrows (nth i (belief_rows system) [])) by (apply nth_In; lia).
  rewrite (Hrows (nth j (belief_rows system) [])) by (apply nth_In; lia).
  apply norm_subtract_self.
Qed.

Definition three_agree : MultiAgentSystem.t R :=
  MultiAgentSystem.mk [agent_at 0 [1; 2]; agent_at 1 [1; 2]; agent_at 2 [1; 2]]
                      (SystemConfig.mk 1 0 0 1).

Lemma compute_polarization_consensus_witness :
  compute_polarization three_agree = Ok 0.
Proof.
  apply (@compute_polarization_consensus three_agree [1; 2]).
  repeat constructor.
Defined.
End PolarizationCases.

Module PolarizationShapes.
Import epistemic_inertia.

(** Agents whose beliefs have different dimensions cannot be stacked:
    if some agent's averaged belief is not as long as the first agent's,
    compute_polarization raises ValueError (in every number model). *)
Theorem compute_polarization_dimension_mismatch {F : Type} `{Scalar F}
    (system : MultiAgentSystem.t F) (a b : Agent.t F) (rest : list (Agent.t F)) :
  MultiAgentSystem.agents system = a :: rest ->
  In b rest ->
  length (mean_over_leading_axes (Agent.mu_q b))
  <> length (mean_over_leading_axes (Agent.mu_q a)) ->
  compute_polarization system = Raise ValueError.
Proof.
  intros Hagents Hin Hlen. unfold compute_polarization. rewrite Hagents.
  set (rows := map _ (a :: rest)).
  unfold np.array.
  destruct (forallb (fun r => Nat.eqb (length r) (np.ncols rows)) rows) eqn:E;
    [|reflexivity].
  exfalso. rewrite forallb_forall in E.
  specialize (E (mean_over_leading_axes (Agent.mu_q b))).
  apply Hlen. apply Nat.eqb_eq, E.
  unfold rows. apply in_map_iff. exists b. split; [reflexivity|now right].
Qed.

Definition mismatched : MultiAgentSystem.t R :=
  MultiAgentSystem.mk
    [PolarizationSpec.agent_at 0 [1; 2]%R; PolarizationSpec.agent_at 1 [1; 2; 3]%R]
    (SystemConfig.mk 1 0 0 1)%R.

Lemma compute_polarization_dimension_mismatch_witness :
  compute_polarization mismatched = Raise ValueError.
Proof.
  apply (@compute_polarization_dimension_mismatch R _ mismatched
           (PolarizationSpec.agent_at 0 [1; 2]%R)
           (PolarizationSpec.agent_at 1 [1; 2; 3]%R)
           [PolarizationSpec.agent_at 1 [1; 2; 3]%R]).
  - reflexivity.
  - now left.
  - discriminate.
Defined.
End PolarizationShapes.

Module PolarizationInvariance.
Import ArrayFacts RealSums PolarizationSpec epistemic_inertia.
Local Open Scope R_scope.

(** The belief [u] moved by the vector [t]. *)
Definition translate (t u : list R) : list R :=
  map (fun k => nth k u 0 + nth k t 0) (seq 0 (length u)).

Lemma length_translate t u : length (translate t u) = length u.
Proof. unfold translate. now rewrite length_map, length_seq. Qed.

Lemma nth_translate t u k :
  (k < length u)%nat -> nth k (translate t u) 0 = nth k u 0 + nth k t 0.
Proof.
  intros Hk. unfold translate. now rewrite (nth_map_seq _ 0 0 Hk).
Qed.

Lemma subtract_translate t u v :
  length u = length v ->
  np.subtract (translate t u) (translate t v) = np.subtract u v.
Proof.
  intros Hlen. unfold np.subtract. rewrite length_translate.
  apply map_seq_ext. intros k Hk.
  rewrite !nth_translate by lia. cbn [fsub RScalar f0]. ring.
Qed.

Lemma nth_map_translate t (rows : list (list R)) i :
  nth i (map (translate t) rows) [] = translate t (nth i rows []).
Proof.
  change (@nil R) with (translate t []) at 1. apply map_nth.
Qed.

Lemma pairwise_distances_translate t (rows : list (list R)) K :
  Forall (fun row => length row = K) rows ->
  pairwise_distances (map (translate t) rows) = pairwise_distances rows.
Proof.
  intros Hrows. unfold pairwise_distances. rewrite length_map.
  rewrite !flat_map_concat_map. f_equal.
  apply map_ext_in. intros i Hi. apply in_seq in Hi.
  apply map_ext_in. intros j Hj. apply in_seq in Hj.
  rewrite !nth_map_translate, subtract_translate; [reflexivity|].
  rewrite Forall_forall in Hrows.
  rewrite (Hrows (nth i rows [])) by (apply nth_In; lia).
  rewrite (Hrows (nth j rows [])) by (apply nth_In; lia).
  reflexivity.
Qed.

(** The score depends on the differences of beliefs only: moving every
    agent's belief by one common vector t does not change it. *)
Theorem compute_polarization_translation_invariant
    (system system' : MultiAgentSystem.t R) (t : list R) :
  uniform_dimension system ->
  belief_rows system' = map (translate t) (belief_rows system) ->
  compute_polarization system' = compute_polarization system.
Proof.
  intros [K HK] Hrows. unfold compute_polarization.
  fold (belief_rows system) (belief_rows system'). rewrite Hrows.
  rewrite (array_uniform HK).
  rewrite (array_uniform (K := K)).
  2:{ apply Forall_forall. intros row Hrow.
      apply in_map_iff in Hrow as (r & <- & Hr).
      rewrite length_translate. rewrite Forall_forall in HK. now apply HK. }
  cbn [bind]. now rewrite (pairwise_distances_translate t HK).
Qed.

Definition three_apart : MultiAgentSystem.t R :=
  MultiAgentSystem.mk [agent_at 0 [0; 0]; agent_at 1 [3; 4]; agent_at 2 [1; 1]]
                      (SystemConfig.mk 1 0 0 1).

Definition three_apart_moved : MultiAgentSystem.t R :=
  MultiAgentSystem.mk
    [agent_at 0 (translate [10; 20] [0; 0]);
     agent_at 1 (translate [10; 20] [3; 4]);
     agent_at 2 (translate [10; 20] [1; 1])]
    (SystemConfig.mk 1 0 0 1).

Lemma compute_polarization_translation_invariant_witness :
  compute_polarization three_apart_moved = compute_polarization three_apart.
Proof.
  apply (@compute_polarization_translation_invariant
           three_apart three_apart_moved [10; 20]).
  - exists 2%nat. repeat constructor.
  - reflexivity.
Defined.
End PolarizationInvariance.

(** ** compute_epistemic_inertia: odd inputs, and what the scores add up to *)

Module InertiaCases.
Import ArrayFacts InertiaSpec epistemic_inertia.
Section Generic.
Context {F : Type} `{Scalar F}.

Implicit Types M : list (list F).

(** The value of the loop, whatever the shape of [M]. *)
Lemma inertia_value
    (build_mu_mass_matrix : MultiAgentSystem.t F -> result (list (list F)))
    (system : MultiAgentSystem.t F) M (agent0 : Agent.t F) :
  build_mu_mass_matrix system = Ok M ->
  nth_error (MultiAgentSystem.agents system) 0 = Some agent0 ->
  compute_epistemic_inertia build_mu_mass_matrix system =
  Ok (map (fun i =>
             fdiv (np.trace (np.block M (i * Agent.K agent0)
                                        ((i + 1) * Agent.K agent0)))
                  (fofZ (Z.of_nat (Agent.K agent0))))
          (seq 0 (MultiAgentSystem.n_agents system))).
Proof.
  intros HM H0. unfold compute_epistemic_inertia, getitem.
  rewrite HM, H0. cbn [bind]. now rewrite fill_loop_all.
Qed.

Lemma block_outside M a b : length M <= a -> np.block M a b = [].
Proof.
  intros Ha. unfold np.block, np.slice.
  rewrite (skipn_all2 M Ha). now rewrite firstn_nil.
Qed.


(** Only the diagonal of the mass matrix is read: two nK-by-nK matrices
    with the same diagonal give the same scores. *)
Theorem compute_epistemic_inertia_diagonal_only
    (build build' : MultiAgentSystem.t F -> result (list (list F)))
    (system : MultiAgentSystem.t F) M M' (agent0 : Agent.t F) :
  build system = Ok M ->
  build' system = Ok M' ->
  nth_error (MultiAgentSystem.agents system) 0 = Some agent0 ->
  has_shape (MultiAgentSystem.n_agents system * Agent.K agent0)
            (MultiAgentSystem.n_agents system * Agent.K agent0) M ->
  has_shape (MultiAgentSystem.n_agents system * Agent.K agent0)
            (MultiAgentSystem.n_agents system * Agent.K agent0) M' ->
  (forall m, m < MultiAgentSystem.n_agents system * Agent.K agent0 ->
     np.item M m m = np.item M' m m) ->
  compute_epistemic_inertia build system =
  compute_epistemic_inertia build' system.
Proof.
  intros HM HM' H0 Hs Hs' Hdiag.
  rewrite (inertia_value _ _ HM H0), (inertia_value _ _ HM' H0). f_equal.
  set (n := MultiAgentSystem.n_agents system) in *.
  set (K := Agent.K agent0) in *.
  apply map_seq_ext. intros i Hi. cbn [Nat.add]. f_equal.
  assert (Hin : i < n) by lia.
  rewrite (@trace_block F _ M n K i Hs Hin).
  rewrite (@trace_block F _ M' n K i Hs' Hin).
  unfold block_trace. f_equal. apply map_seq_ext. intros d Hd.
  apply Hdiag.
  assert (i * K + K <= n * K).
  { replace (i * K + K) with ((i + 1) * K) by lia.
    apply Nat.mul_le_mono_r. lia. }
  lia.
Qed.
End Generic.

Local Open Scope R_scope.

Lemma no_agents_witness :
  compute_epistemic_inertia (fun _ => Ok mass_K2)
    (MultiAgentSystem.mk (@nil (Agent.t R)) (SystemConfig.mk 1 0 0 1))
  = Raise IndexError.
Proof.
  apply (@compute_epistemic_inertia_no_agents R _ (fun _ => Ok mass_K2)
           (MultiAgentSystem.mk (@nil (Agent.t R)) (SystemConfig.mk 1 0 0 1))
           mass_K2).
  - reflexivity.
  - reflexivity.
Defined.

Definition too_small : list (list R) := [[1; 2]; [3; 4]].


Definition mass_K2_coupled : list (list R) :=
  [[1; 9; 9; 9];
   [9; 4; 9; 9];
   [9; 9; 5; 9];
   [9; 9; 9; 8]].

Lemma mass_K2_coupled_shape :
  has_shape (MultiAgentSystem.n_agents system_K2 * Agent.K (agent_K2 0))
            (MultiAgentSystem.n_agents system_K2 * Agent.K (agent_K2 0))
            mass_K2_coupled.
Proof. split; [reflexivity|]. repeat constructor. Qed.

Lemma mass_K2_same_diagonal m :
  (m < MultiAgentSystem.n_agents system_K2 * Agent.K (agent_K2 0))%nat ->
  np.item mass_K2 m m = np.item mass_K2_coupled m m.
Proof.
  intros _. destruct m as [|[|[|[|m]]]]; reflexivity.
Qed.

Lemma compute_epistemic_inertia_diagonal_only_witness :
  compute_epistemic_inertia (fun _ => Ok mass_K2) system_K2 =
  compute_epistemic_inertia (fun _ => Ok mass_K2_coupled) system_K2.
Proof.
  exact (@compute_epistemic_inertia_diagonal_only R _
           (fun _ => Ok mass_K2) (fun _ => Ok mass_K2_coupled)
           system_K2 mass_K2 mass_K2_coupled (agent_K2 0)
           eq_refl eq_refl eq_refl mass_K2_shape mass_K2_coupled_shape
           mass_K2_same_diagonal).
Defined.
End InertiaCases.

Module InertiaTotal.
Import ArrayFacts RealSums InertiaSpec InertiaCases epistemic_inertia.
Local Open Scope R_scope.

Lemma Sigma_app l1 l2 (f : nat -> R) :
  Sigma (l1 ++ l2) f = Sigma l1 f + Sigma l2 f.
Proof. unfold Sigma. now rewrite map_app, sum_app. Qed.

Lemma seq_offset (a n : nat) : seq a n = map (Nat.add a) (seq 0 n).
Proof.
  revert a. induction n as [|n IH]; intros a; [reflexivity|].
  cbn [seq map]. rewrite Nat.add_0_r. f_equal.
  rewrite (IH (S a)), (IH 1%nat), map_map.
  apply map_ext. intros d. lia.
Qed.

Lemma Sigma_offset (a n : nat) (f : nat -> R) :
  Sigma (seq a n) f = Sigma (seq 0 n) (fun d => f (a + d)%nat).
Proof.
  unfold Sigma. now rewrite (seq_offset a n), map_map.
Qed.

(** A sum over n blocks of K consecutive indices. *)
Lemma Sigma_blocks (n K : nat) (f : nat -> R) :
  Sigma (seq 0 (n * K)) f =
  Sigma (seq 0 n) (fun i => Sigma (seq 0 K) (fun d => f (i * K + d)%nat)).
Proof.
  induction n as [|n IH]; [reflexivity|].
  replace (S n * K)%nat with (n * K + K)%nat by lia.
  rewrite seq_app, seq_S, !Sigma_app, IH. f_equal.
  rewrite Sigma_cons, Sigma_nil, Sigma_offset. simpl. lra.
Qed.

(** The scores add up to the trace of the whole mass matrix divided by
    K: sum(inertia) * K = trace(M). *)
Theorem compute_epistemic_inertia_total
    (build_mu_mass_matrix : MultiAgentSystem.t R -> result (list (list R)))
    (system : MultiAgentSystem.t R) (M : list (list R)) (agent0 : Agent.t R)
    (inertia : list R) :
  build_mu_mass_matrix system = Ok M ->
  nth_error (MultiAgentSystem.agents system) 0 = Some agent0 ->
  has_shape (MultiAgentSystem.n_agents system * Agent.K agent0)
            (MultiAgentSystem.n_agents system * Agent.K agent0) M ->
  (0 < Agent.K agent0)%nat ->
  compute_epistemic_inertia build_mu_mass_matrix system = Ok inertia ->
  np.sum inertia * IZR (Z.of_nat (Agent.K agent0)) = np.trace M.
Proof.
  intros HM H0 Hshape HK Hrun.
  rewrite (inertia_value _ _ HM H0) in Hrun. injection Hrun as <-.
  set (n := MultiAgentSystem.n_agents system) in *.
  set (K := Agent.K agent0) in *.
  assert (Hn : (0 < n)%nat).
  { unfold n, MultiAgentSystem.n_agents.
    destruct (MultiAgentSystem.agents system); [discriminate | simpl; lia]. }
  assert (HKr : 0 < IZR (Z.of_nat K)) by (apply IZR_lt; lia).
  rewrite (map_seq_ext _
             (fun i => block_trace M K i / IZR (Z.of_nat K))).
  2:{ intros i Hi. cbn [Nat.add].
      assert (Hin : (i < n)%nat) by lia.
      now rewrite (@trace_block R _ M n K i Hshape Hin). }
  rewrite <- (map_map (block_trace M K) (fun x => x / IZR (Z.of_nat K))).
  rewrite sum_map_div.
  replace (np.sum (map (block_trace M K) (seq 0 n)) / IZR (Z.of_nat K)
           * IZR (Z.of_nat K))
    with (np.sum (map (block_trace M K) (seq 0 n))) by (field; lra).
  unfold np.trace.
  rewrite (nrows_shape Hshape), (ncols_shape Hshape), Nat.min_id by nia.
  exact (eq_sym (Sigma_blocks n K (fun m => np.item M m m))).
Qed.

Lemma compute_epistemic_inertia_total_witness :
  np.sum [(0 + 1 + 4) / 2; (0 + 5 + 8) / 2]
  * IZR (Z.of_nat (Agent.K (agent_K2 0)))
  = np.trace mass_K2.
Proof.
  exact (@compute_epistemic_inertia_total (fun _ => Ok mass_K2) system_K2
           mass_K2 (agent_K2 0) [(0 + 1 + 4) / 2; (0 + 5 + 8) / 2]
           eq_refl eq_refl mass_K2_shape (le_S _ _ (le_n 1)) inertia_K2).
Defined.
End InertiaTotal.

(** ** create_agents: edge inputs, reproducibility, per-agent settings *)

Module CreateAgentsCases.
Import epistemic_inertia CreateAgentsSpec.
Local Open Scope Z_scope.

Section Loop.
Context {F : Type} `{Scalar F}.
Variable init_mu_q : AgentConfig.t F -> Generator -> belief_array F.

(** With a seed that is not falsy the generators do not come from the
    entropy pool. *)
Lemma agent_rng_seeded os1 os2 preset seed i d1 d2 :
  falsy seed = false ->
  agent_rng os1 preset seed i d1 = agent_rng os2 preset seed i d2.
Proof.
  unfold agent_rng, agent_seed, falsy.
  destruct seed as [s|]; [|discriminate]. now intros ->.
Qed.

Lemma draws_seeded preset seed :
  falsy seed = false -> draws_per_agent preset seed = 0%nat.
Proof. unfold draws_per_agent. now intros ->. Qed.

(** The loop under such a seed: the same state for every entropy pool,
    and nothing drawn. *)
Lemma loop_seeded os1 os2 n_agents preset seed k :
  valid_seed seed -> falsy seed = false ->
  forall a cfg agents d1 d2,
  exists st,
    for_each (create_agents_body os1 init_mu_q n_agents preset seed)
             (map Z.of_nat (seq a k)) (cfg, agents) d1 = Ok (st, d1) /\
    for_each (create_agents_body os2 init_mu_q n_agents preset seed)
             (map Z.of_nat (seq a k)) (cfg, agents) d2 = Ok (st, d2).
Proof.
  intros Hseed Hf. induction k as [|k IH]; intros a cfg agents d1 d2.
  - exists (cfg, agents). split; reflexivity.
  - cbn [seq map for_each]. unfold io_bind.
    rewrite !create_agents_body_eq by (assumption || lia).
    rewrite (@draws_seeded preset seed Hf), !Nat.add_0_r.
    rewrite (@agent_rng_seeded os1 os2 preset seed (Z.of_nat a) d1 d2 Hf).
    apply IH.
Qed.

(** The loop keeps an invariant of the configuration object and
    establishes a property of what each constructor sees. *)
Lemma loop_configs os n_agents preset seed
    (Inv : AgentConfig.t F -> Prop) (Post : Z -> AgentConfig.t F -> Prop) k :
  valid_seed seed ->
  (forall i c, Inv c -> Inv (config_step n_agents preset i c)) ->
  (forall i c, Inv c -> Post i (config_step n_agents preset i c)) ->
  forall a cfg agents drawn st drawn',
    Inv cfg ->
    Forall (fun ag => Post (Agent.agent_id ag) (Agent.config ag)) agents ->
    for_each (create_agents_body os init_mu_q n_agents preset seed)
             (map Z.of_nat (seq a k)) (cfg, agents) drawn = Ok (st, drawn') ->
    Forall (fun ag => Post (Agent.agent_id ag) (Agent.config ag)) (snd st).
Proof.
  intros Hseed Hinv Hpost. induction k as [|k IH];
    intros a cfg agents drawn st drawn' Hcfg Hagents Hrun.
  - cbn in Hrun. injection Hrun as <- _. exact Hagents.
  - cbn [seq map for_each] in Hrun. unfold io_bind at 1 in Hrun.
    rewrite create_agents_body_eq in Hrun by (assumption || lia).
    eapply IH; [| |exact Hrun].
    + now apply Hinv.
    + apply Forall_app. split; [assumption|].
      constructor; [|constructor]. cbn. now apply Hpost.
Qed.
End Loop.

(** What every constructor sees, for the whole call. *)
Lemma create_agents_configs {F : Type} `{Scalar F}
    (os_entropy : nat -> Z)
    (init_mu_q : AgentConfig.t F -> Generator -> belief_array F)
    (n_agents : Z) (preset : SociologyPresets)
    (config : option (SociologyConfig.t F)) (seed : option Z) (drawn : nat)
    (Inv : AgentConfig.t F -> Prop) (Post : Z -> AgentConfig.t F -> Prop)
    (agents : list (Agent.t F)) (drawn' : nat) :
  valid_seed seed ->
  (forall i c, Inv c -> Inv (config_step n_agents preset i c)) ->
  (forall i c, Inv c -> Post i (config_step n_agents preset i c)) ->
  Inv (SociologyConfig.to_agent_config
         match config with
         | None => get_preset_config preset
         | Some c => c
         end) ->
  create_agents os_entropy init_mu_q n_agents preset config seed drawn
    = Ok (agents, drawn') ->
  Forall (fun ag => Post (Agent.agent_id ag) (Agent.config ag)) agents.
Proof.
  intros Hseed Hinv Hpost Hcfg Hrun.
  unfold create_agents, io_bind at 1 in Hrun.
  destruct (default_rng os_entropy seed drawn) as [[g d]|e]; [|discriminate].
  unfold io_bind, io_ret in Hrun.
  destruct (for_each _ _ _ d) as [[st d']|e] eqn:Hloop; [|discriminate].
  injection Hrun as <- _.
  exact (@loop_configs F _ init_mu_q os_entropy n_agents preset seed Inv Post
           _ Hseed Hinv Hpost _ _ _ _ _ _ Hcfg (Forall_nil _) Hloop).
Qed.

(** A count of zero or less gives the empty list (range(n) is empty),
    not an error. *)
Theorem create_agents_nonpositive_count {F : Type} `{Scalar F}
    (os_entropy : nat -> Z)
    (init_mu_q : AgentConfig.t F -> Generator -> belief_array F)
    (n_agents : Z) (preset : SociologyPresets)
    (config : option (SociologyConfig.t F)) (seed : option Z) (drawn : nat) :
  n_agents <= 0 ->
  valid_seed seed ->
  exists drawn',
    create_agents os_entropy init_mu_q n_agents preset config seed drawn
    = Ok ([], drawn').
Proof.
  intros Hn Hseed.
  destruct (@create_agents_run F _ os_entropy init_mu_q n_agents preset config
              seed drawn Hseed) as (agents & Hrun & Hids & _).
  assert (agents = []) as ->.
  { apply (map_eq_nil Agent.agent_id). rewrite Hids. unfold range.
    replace (Z.to_nat n_agents) with 0%nat by lia. reflexivity. }
  eauto.
Qed.

Lemma create_agents_nonpositive_count_witness :
  exists drawn',
    create_agents (fun k => Z.of_nat k) (fun _ _ => Vec [0%R]) (-3) POLARIZATION
                  None (Some 7) 0%nat
    = Ok ([], drawn').
Proof.
  apply (@create_agents_nonpositive_count R _ (fun k => Z.of_nat k)
           (fun _ _ => Vec [0%R]) (-3) POLARIZATION None (Some 7) 0%nat).
  - lia.
  - simpl. lia.
Defined.

Lemma create_agents_negative_seed_witness :
  create_agents (fun k => Z.of_nat k) (fun _ _ => Vec [0%R]) 0 NEUTRAL
                None (Some (-1)) 0%nat
  = Raise ValueError.
Proof.
  apply (@create_agents_negative_seed R _ (fun k => Z.of_nat k)
           (fun _ _ => Vec [0%R]) 0 NEUTRAL None (-1) 0%nat).
  lia.
Defined.

(** With a positive seed the call is reproducible: two calls with the
    same arguments return the same agents, whatever the state of the
    operating system's entropy pool, and neither takes anything from it. *)
Theorem create_agents_seeded_identical {F : Type} `{Scalar F}
    (os1 os2 : nat -> Z)
    (init_mu_q : AgentConfig.t F -> Generator -> belief_array F)
    (n_agents : Z) (preset : SociologyPresets)
    (config : option (SociologyConfig.t F)) (s : Z) (d1 d2 : nat) :
  0 < s ->
  exists agents,
    create_agents os1 init_mu_q n_agents preset config (Some s) d1
      = Ok (agents, d1) /\
    create_agents os2 init_mu_q n_agents preset config (Some s) d2
      = Ok (agents, d2).
Proof.
  intros Hs.
  assert (Hseed : valid_seed (Some s)) by (simpl; lia).
  assert (Hf : falsy (Some s) = false)
    by (simpl; destruct (Z.eqb_spec s 0); [lia|reflexivity]).
  unfold create_agents, range.
  set (cfg := SociologyConfig.to_agent_config _).
  destruct (@loop_seeded F _ init_mu_q os1 os2 n_agents preset (Some s)
              (Z.to_nat n_agents) Hseed Hf 0%nat cfg [] d1 d2)
    as (st & H1 & H2).
  exists (snd st). unfold io_bind at 1 3. unfold default_rng.
  destruct (Z.ltb_spec s 0); [lia|].
  unfold io_bind, io_ret. now rewrite H1, H2.
Qed.

Lemma create_agents_seeded_identical_witness :
  exists agents,
    create_agents (fun k => Z.of_nat k) (fun _ _ => Vec [0%R]) 3 POLARIZATION
                  None (Some 42) 0%nat
      = Ok (agents, 0%nat) /\
    create_agents (fun k => Z.of_nat k + 1000) (fun _ _ => Vec [0%R]) 3
                  POLARIZATION None (Some 42) 5%nat
      = Ok (agents, 5%nat).
Proof.
  apply (@create_agents_seeded_identical R _ (fun k => Z.of_nat k)
           (fun k => Z.of_nat k + 1000) (fun _ _ => Vec [0%R]) 3 POLARIZATION
           None 42 0%nat 5%nat).
  lia.
Defined.

(** Under the POLARIZATION preset the constructor of agent i sees
    mu_scale = 0.5 when i < n_agents // 2 and -0.5 otherwise, also when a
    custom config was passed: its initial_belief_spread is overwritten. *)
Theorem create_agents_polarization_groups {F : Type} `{Scalar F}
    (os_entropy : nat -> Z)
    (init_mu_q : AgentConfig.t F -> Generator -> belief_array F)
    (n_agents : Z) (config : option (SociologyConfig.t F)) (seed : option Z)
    (drawn : nat) :
  valid_seed seed ->
  exists agents drawn',
    create_agents os_entropy init_mu_q n_agents POLARIZATION config seed drawn
      = Ok (agents, drawn') /\
    Forall (fun agent =>
              AgentConfig.mu_scale (Agent.config agent) =
              if Agent.agent_id agent <? n_agents / 2
              then ratio 5 10 else fneg (ratio 5 10))
           agents.
Proof.
  intros Hseed.
  destruct (@create_agents_run F _ os_entropy init_mu_q n_agents POLARIZATION
              config seed drawn Hseed) as (agents & Hrun & _).
  exists agents. eexists. split; [exact Hrun|].
  set (drawn' := (drawn + _)%nat) in Hrun.
  apply (@create_agents_configs F _ os_entropy init_mu_q n_agents POLARIZATION
           config seed drawn (fun _ => True)
           (fun i c => AgentConfig.mu_scale c =
                       if i <? n_agents / 2
                       then ratio 5 10 else fneg (ratio 5 10))
           agents drawn' Hseed); auto.
  intros i c _. unfold config_step. cbn [preset_eqb].
  destruct (i <? n_agents / 2); reflexivity.
Qed.

(** Under the presets other than EXPERT_VS_NOVICE and POLARIZATION the
    loop changes nothing: every constructor sees the configuration
    to_agent_config() returned. *)
Theorem create_agents_plain_presets {F : Type} `{Scalar F}
    (os_entropy : nat -> Z)
    (init_mu_q : AgentConfig.t F -> Generator -> belief_array F)
    (n_agents : Z) (preset : SociologyPresets)
    (config : option (SociologyConfig.t F)) (seed : option Z)
    (drawn : nat) :
  valid_seed seed ->
  preset <> EXPERT_VS_NOVICE -> preset <> POLARIZATION ->
  exists agents drawn',
    create_agents os_entropy init_mu_q n_agents preset config seed drawn
      = Ok (agents, drawn') /\
    Forall (fun agent =>
              Agent.config agent =
              SociologyConfig.to_agent_config
                match config with
                | None => get_preset_config preset
                | Some c => c
                end)
           agents.
Proof.
  intros Hseed Hne1 Hne2.
  destruct (@create_agents_run F _ os_entropy init_mu_q n_agents preset
              config seed drawn Hseed) as (agents & Hrun & _).
  exists agents. eexists. split; [exact Hrun|].
  set (drawn' := (drawn + _)%nat) in Hrun.
  set (cfg0 := SociologyConfig.to_agent_config _).
  assert (Hstep : forall i c, config_step n_agents preset i c = c).
  { intros i c. unfold config_step.
    destruct preset; try reflexivity; contradiction. }
  apply (@create_agents_configs F _ os_entropy init_mu_q n_agents preset
           config seed drawn (fun c => c = cfg0) (fun _ c => c = cfg0)
           agents drawn' Hseed); auto.
  - intros i c ->. apply Hstep.
  - intros i c ->. apply Hstep.
Qed.

Lemma create_agents_polarization_groups_witness :
  exists agents drawn',
    create_agents (fun k => Z.of_nat k) (fun _ _ => Vec [0%R]) 5 POLARIZATION
                  (Some (SociologyConfig.make 9 9 9 9)%R) None 0%nat
      = Ok (agents, drawn') /\
    Forall (fun agent =>
              AgentConfig.mu_scale (Agent.config agent) =
              if Agent.agent_id agent <? 5 / 2
              then ratio 5 10 else fneg (ratio 5 10))
           agents.
Proof.
  apply (@create_agents_polarization_groups R _ (fun k => Z.of_nat k)
           (fun _ _ => Vec [0%R]) 5
           (Some (SociologyConfig.make 9 9 9 9)%R) None 0%nat).
  exact I.
Defined.

Lemma create_agents_plain_presets_witness :
  exists agents drawn',
    create_agents (fun k => Z.of_nat k) (fun _ _ => Vec [0%R]) 4 BACKFIRE
                  None (Some 3) 0%nat
      = Ok (agents, drawn') /\
    Forall (fun agent =>
              Agent.config agent =
              SociologyConfig.to_agent_config (get_preset_config BACKFIRE))
           agents.
Proof.
  apply (@create_agents_plain_presets R _ (fun k => Z.of_nat k)
           (fun _ _ => Vec [0%R]) 4 BACKFIRE None (Some 3) 0%nat).
  - simpl. lia.
  - discriminate.
  - discriminate.
Defined.

(** *** EXPERT_VS_NOVICE, over the reals *)

Lemma expert_test (i n_agents : Z) :
  @fltb R _ (fofZ i) (fmul (fofZ n_agents) (ratio 2 10)) = true
  <-> 5 * i < n_agents.
Proof.
  unfold ratio. cbn [fltb fofZ fmul fdiv RScalar].
  destruct (Rlt_dec (IZR i) (IZR n_agents * (2 / 10))) as [Hlt|Hge].
  - split; [intros _|reflexivity].
    apply lt_IZR. rewrite mult_IZR. lra.
  - split; [discriminate|]. intros Hlt. exfalso. apply Hge.
    apply IZR_lt in Hlt. rewrite mult_IZR in Hlt. lra.
Qed.

(** Under the EXPERT_VS_NOVICE preset, in exact arithmetic, the
    constructor of agent i sees sigma_scale = 0.1 when i is in the first
    fifth of the agents (5 i < n_agents) and 0.5 otherwise, also when a
    custom config was passed: its uncertainty_level is overwritten. *)
Theorem create_agents_expert_share
    (os_entropy : nat -> Z)
    (init_mu_q : AgentConfig.t R -> Generator -> belief_array R)
    (n_agents : Z) (config : option (SociologyConfig.t R)) (seed : option Z)
    (drawn : nat) :
  valid_seed seed ->
  exists agents drawn',
    create_agents os_entropy init_mu_q n_agents EXPERT_VS_NOVICE config seed drawn
      = Ok (agents, drawn') /\
    Forall (fun agent =>
              AgentConfig.sigma_scale (Agent.config agent) =
              if 5 * Agent.agent_id agent <? n_agents
              then (1 / 10)%R else (5 / 10)%R)
           agents.
Proof.
  intros Hseed.
  destruct (@create_agents_run R _ os_entropy init_mu_q n_agents EXPERT_VS_NOVICE
              config seed drawn Hseed) as (agents & Hrun & _).
  exists agents. eexists. split; [exact Hrun|].
  set (drawn' := (drawn + _)%nat) in Hrun.
  apply (@create_agents_configs R _ os_entropy init_mu_q n_agents
           EXPERT_VS_NOVICE config seed drawn (fun _ => True)
           (fun i c => AgentConfig.sigma_scale c =
                       if 5 * i <? n_agents then (1 / 10)%R else (5 / 10)%R)
           agents drawn' Hseed); auto.
  intros i c _. unfold config_step. cbn [preset_eqb].
  pose proof (expert_test i n_agents) as Htest.
  destruct (fltb (fofZ i) (fmul (fofZ n_agents) (ratio 2 10))).
  - destruct (Z.ltb_spec (5 * i) n_agents); [reflexivity|].
    assert (5 * i < n_agents) by now apply Htest. lia.
  - destruct (Z.ltb_spec (5 * i) n_agents) as [Hlt|]; [|reflexivity].
    apply Htest in Hlt. discriminate.
Qed.

Lemma create_agents_expert_share_witness :
  exists agents drawn',
    create_agents (fun k => Z.of_nat k) (fun _ _ => Vec [0%R]) 10
                  EXPERT_VS_NOVICE None None 0%nat
      = Ok (agents, drawn') /\
    Forall (fun agent =>
              AgentConfig.sigma_scale (Agent.config agent) =
              if 5 * Agent.agent_id agent <? 10
              then (1 / 10)%R else (5 / 10)%R)
           agents.
Proof.
  apply (@create_agents_expert_share (fun k => Z.of_nat k)
           (fun _ _ => Vec [0%R]) 10 None None 0%nat).
  exact I.
Defined.
End CreateAgentsCases.

(** ** get_preset_config: the documented ranges *)

Module PresetRanges.
Import epistemic_inertia.
Local Open Scope R_scope.

Definition unit_interval (x : R) : Prop := 0 <= x <= 1.

(** Every preset keeps the parameters inside the ranges the class
    documents (each of the five rates lies in [0, 1]), has 3 belief
    dimensions, and converts to a system configuration whose softmax
    temperature is strictly positive. *)
Theorem preset_parameters_in_range (preset : SociologyPresets) :
  unit_interval (SociologyConfig.initial_belief_spread (get_preset_config preset)) /\
  unit_interval (SociologyConfig.prior_strength (get_preset_config preset)) /\
  unit_interval (SociologyConfig.social_influence_strength (get_preset_config preset)) /\
  unit_interval (SociologyConfig.uncertainty_level (get_preset_config preset)) /\
  unit_interval (SociologyConfig.learning_rate (get_preset_config preset)) /\
  SociologyConfig.belief_dimensions (get_preset_config (F := R) preset) = 3%Z /\
  0 < SystemConfig.kappa_beta
        (SociologyConfig.to_system_config (get_preset_config preset)).
Proof.
  unfold unit_interval.
  destruct preset; unfold get_preset_config, SociologyConfig.default,
    SociologyConfig.make, ratio; simpl; repeat split; lra.
Qed.
End PresetRanges.

(* ================================================================= *)
(** * Statements across the number models *)

(** ** Extended reals *)

Module ExtendedFacts.
Import Extended.
Local Open Scope R_scope.

Lemma is_neg_false r : 0 <= r -> is_neg r = false.
Proof.
  intros Hr. unfold is_neg. destruct (Rlt_dec r 0); [lra|reflexivity].
Qed.

Lemma is_zero_false r : r <> 0 -> is_zero r = false.
Proof.
  intros Hr. unfold is_zero. destruct (Req_dec_T r 0); [contradiction|reflexivity].
Qed.

Lemma is_zero_true r : r = 0 -> is_zero r = true.
Proof.
  intros Hr. unfold is_zero. destruct (Req_dec_T r 0); [reflexivity|contradiction].
Qed.

Lemma fold_add_Fin (l : list R) (a : R) :
  fold_left add (map Fin l) (Fin a) = Fin (fold_left Rplus l a).
Proof.
  revert a. induction l as [|x l IH]; intros a; simpl; [reflexivity|apply IH].
Qed.

(** A sum of finite values is the finite value of the real sum. *)
Lemma sum_Fin (l : list R) : np.sum (map Fin l) = Fin (np.sum l).
Proof. apply fold_add_Fin. Qed.

(** A finite value over a finite nonzero value. *)
Lemma div_Fin (a b : R) : b <> 0 -> div (Fin a) (Fin b) = Fin (a / b).
Proof. intros Hb. simpl. now rewrite (is_zero_false Hb). Qed.

(** [-inf] over a positive temperature is [-inf]. *)
Lemma div_NInf_pos (b : R) : 0 < b -> div NInf (Fin b) = NInf.
Proof. intros Hb. simpl. rewrite is_neg_false by lra. reflexivity. Qed.
End ExtendedFacts.

(** ** compute_social_influence_matrix: the temperature is not checked *)

Module TemperatureUnchecked.
Import ArrayFacts SoftmaxFacts epistemic_inertia Extended ExtendedFacts.


(** *** Two agents at temperature 0, over the extended reals *)

Definition still_agent (i : Z) : Agent.t ext :=
  Agent.mk i (AgentConfig.mk 1 (Fin 0) (Fin 1) (Fin 0) (Fin 0)) (Seeded i) 1
           (Vec [Fin 0]).

Definition frozen_pair : MultiAgentSystem.t ext :=
  MultiAgentSystem.mk [still_agent 0; still_agent 1]
                      (SystemConfig.mk (Fin 1) (Fin 0) (Fin 0) (Fin 0)).

(** Divergence 0 from oneself and 1 from the other agent. *)
Definition unit_kl (system : MultiAgentSystem.t ext) (mode : kl_mode)
    : result (list (list ext)) :=
  Ok [[Fin 0; Fin 1]; [Fin 1; Fin 0]].

Lemma unit_kl_square : square 2 [[Fin 0; Fin 1]; [Fin 1; Fin 0]].
Proof. split; [reflexivity|]. repeat constructor. Qed.


(** At temperature 0 the weights are 0/0 on the diagonal and exp(-inf)
    off it: the call returns, and every entry of the result is NaN. *)
Example social_influence_zero_temperature :
  compute_social_influence_matrix unit_kl frozen_pair =
  Ok [[NaN; NaN]; [NaN; NaN]].
Proof.
  rewrite (social_influence_square unit_kl frozen_pair eq_refl unit_kl_square).
  assert (Hd : weight [[Fin 0; Fin 1]; [Fin 1; Fin 0]] (Fin 0) 0 0 = NaN
               /\ weight [[Fin 0; Fin 1]; [Fin 1; Fin 0]] (Fin 0) 1 1 = NaN).
  { unfold weight, np.item. simpl.
    rewrite (is_zero_true (r := 0)) by reflexivity.
    rewrite (is_zero_true (r := Ropp 0)) by lra. split; reflexivity. }
  assert (Ho : weight [[Fin 0; Fin 1]; [Fin 1; Fin 0]] (Fin 0) 0 1 = Fin 0
               /\ weight [[Fin 0; Fin 1]; [Fin 1; Fin 0]] (Fin 0) 1 0 = Fin 0).
  { unfold weight, np.item. simpl.
    rewrite (is_zero_true (r := 0)) by reflexivity.
    rewrite (is_zero_false (r := Ropp 1)) by lra.
    unfold is_neg. destruct (Rlt_dec (Ropp 1) 0); [|lra]. split; reflexivity. }
  destruct Hd as [H00 H11], Ho as [H01 H10].
  unfold np.tabulate, row_total, np.sum. cbn [map seq fold_left].
  cbn zeta.
  change (SystemConfig.kappa_beta (MultiAgentSystem.config frozen_pair))
    with (Fin 0).
  rewrite H00, H01, H10, H11. reflexivity.
Qed.
End TemperatureUnchecked.

(** ** compute_social_influence_matrix: a diagonal excluded by compute_kl_matrix *)

Module DiagonalExclusion.
Import ArrayFacts RealSums SoftmaxFacts epistemic_inertia Extended ExtendedFacts.
Local Open Scope R_scope.

(** Modelled from the spec: [compute_kl_matrix]
    ([gradients/softmax_grads.py] is not under src/).  Section 4.4: it
    builds the N-by-N matrix of pairwise KL divergences, the mode selecting
    which distributions are compared, and the diagonal is excluded from
    normalization, an agent not attending to itself as a neighbour.
    [divergence mode i j] is the KL divergence between the beliefs of
    agents i and j, a finite number.  The diagonal entry is [inf]: the
    softmax that follows exponentiates and sums whole rows, so the one way
    an entry stays out of the normalization is a weight exp(-KL/kappa)
    equal to 0, which at a temperature kappa > 0 means KL = inf. *)
Definition compute_kl_matrix (divergence : kl_mode -> nat -> nat -> R)
    (system : MultiAgentSystem.t ext) (mode : kl_mode)
    : result (list (list ext)) :=
  let n := MultiAgentSystem.n_agents system in
  Ok (np.tabulate n n (fun i j =>
        if Nat.eqb i j then PInf else Fin (divergence mode i j))).

(** The unnormalised weight agent [i] gives to agent [j], and the
    normaliser of row [i]: a sum over the other agents only. *)
Definition neighbour_weight (d : nat -> nat -> R) (kappa : R) (i j : nat) : R :=
  if Nat.eqb i j then 0 else exp (- d i j / kappa).

Definition neighbour_total (n : nat) (d : nat -> nat -> R) (kappa : R)
    (i : nat) : R :=
  Sigma (seq 0 n) (neighbour_weight d kappa i).

Lemma neighbour_weight_nonneg d kappa i j : 0 <= neighbour_weight d kappa i j.
Proof.
  unfold neighbour_weight. destruct (Nat.eqb i j); [lra|].
  apply Rlt_le, exp_pos.
Qed.

Lemma neighbour_total_pos n d kappa i :
  (2 <= n)%nat -> (i < n)%nat -> 0 < neighbour_total n d kappa i.
Proof.
  intros Hn Hi. unfold neighbour_total.
  apply (@Sigma_pos_at (seq 0 n) (neighbour_weight d kappa i)
           (if Nat.eqb i 0 then 1%nat else 0%nat)).
  - intros j _. apply neighbour_weight_nonneg.
  - apply in_seq. destruct (Nat.eqb i 0); lia.
  - unfold neighbour_weight.
    destruct (Nat.eqb_spec i 0) as [->|Hne].
    + simpl. apply exp_pos.
    + destruct (Nat.eqb_spec i 0); [lia|]. apply exp_pos.
Qed.

Section Weights.
Variables (n : nat) (d : nat -> nat -> R) (kappa : R).
Hypothesis kappa_pos : 0 < kappa.

Let kl : list (list ext) :=
  np.tabulate n n (fun i j => if Nat.eqb i j then PInf else Fin (d i j)).

(** With an infinite diagonal the weight exp(-KL_ii/kappa) is 0. *)
Lemma weight_excluded i j :
  (i < n)%nat -> (j < n)%nat ->
  weight kl (Fin kappa) i j = Fin (neighbour_weight d kappa i j).
Proof.
  intros Hi Hj. unfold weight, kl, neighbour_weight.
  rewrite item_tabulate by assumption.
  destruct (Nat.eqb i j).
  - cbn [fneg fdiv fexp ExtScalar ExtExponential opp].
    rewrite (div_NInf_pos kappa_pos). reflexivity.
  - cbn [fneg fdiv fexp ExtScalar ExtExponential opp].
    rewrite div_Fin by lra. reflexivity.
Qed.

Lemma row_total_excluded i :
  (i < n)%nat ->
  row_total n kl (Fin kappa) i = Fin (neighbour_total n d kappa i).
Proof.
  intros Hi. unfold row_total, neighbour_total, Sigma.
  rewrite <- sum_Fin, map_map. f_equal.
  apply map_ext_in. intros j Hj. apply in_seq in Hj.
  apply weight_excluded; [assumption|lia].
Qed.
End Weights.


(** *** Two agents at divergence 1 and temperature 1 *)

Definition neighbour (i : Z) : Agent.t ext :=
  Agent.mk i (AgentConfig.mk 1 (Fin 0) (Fin 1) (Fin 0) (Fin 0)) (Seeded i) 1
           (Vec [Fin (IZR i)]).

Definition neighbours : MultiAgentSystem.t ext :=
  MultiAgentSystem.mk [neighbour 0; neighbour 1]
                      (SystemConfig.mk (Fin 1) (Fin 0) (Fin 0) (Fin 1)).

Definition unit_divergence (mode : kl_mode) (i j : nat) : R := 1.

End DiagonalExclusion.

(** ** ensure_spd: exact arithmetic and doubles *)

Module EnsureSpdModels.
Import ArrayFacts MathUtilsSpec SpdSpec SpecFloat Float64.

(** The product of a matrix of doubles with a vector. *)
Definition matvec64 (A : list (list float64)) (v : list float64)
    : list float64 :=
  map (fun row =>
         np.sum (map (fun k => fmul (nth k row f0) (nth k v f0))
                     (seq 0 (length row))))
      A.

(** The double 2^60, whose spacing to the next double is 256. *)
Definition big : float64 := of_Z (2 ^ 60).

(** C1 (amended).  For every square matrix Sigma, ensure_spd(Sigma, eps)
    returns the symmetric matrix symmetrize(Sigma) + eps I.  In exact
    real arithmetic and for eps > 0 its eigenvalues are all at least eps,
    hence strictly positive, whenever Sigma is positive semidefinite
    (x^T Sigma x >= 0 for all x).  In double precision the result is
    symmetric too, with entries fl(fl(0.5 fl(S_ij + S_ji)) + fl(eps d_ij)),
    but its eigenvalues need not be positive even for a positive
    semidefinite Sigma, since eps is lost to rounding next to large
    entries: with the default eps, [[2^60, 2^60], [2^60, 2^60]] is
    returned unchanged and still maps (1, -1) to (0, 0). *)
Theorem ensure_spd_regularises :
  (forall (n : nat) (Sigma : list (list R)) (eps : R),
     square n Sigma -> (0 < eps)%R ->
     exists B,
       math_utils.ensure_spd Sigma eps = Ok B /\
       square n B /\
       symmetric B /\
       (forall i j, i < n -> j < n ->
          np.item B i j =
          ((np.item Sigma i j + np.item Sigma j i) / 2
           + eps * (if Nat.eqb i j then 1 else 0))%R) /\
       (positive_semidefinite n Sigma ->
        forall lam v, eigenpair n B lam v -> (eps <= lam)%R /\ (0 < lam)%R)) /\
  (forall (n : nat) (Sigma : list (list float64)) (eps : float64),
     square n Sigma ->
     exists B,
       math_utils.ensure_spd Sigma eps = Ok B /\
       square n B /\
       np.swapaxes B = B /\
       forall i j, i < n -> j < n ->
         np.item B i j =
         fadd (fmul (ratio 1 2) (fadd (np.item Sigma i j) (np.item Sigma j i)))
              (fmul eps (if Nat.eqb i j then f1 else f0))) /\
  (math_utils.ensure_spd [[big; big]; [big; big]] math_utils.default_eps
     = Ok [[big; big]; [big; big]] /\
   matvec64 [[big; big]; [big; big]] [of_Z 1; of_Z (-1)] = [f0; f0]).
Proof.
  split; [exact (@ensure_spd_spec)|]. split.
  - intros n Sigma eps HS. eexists.
    split; [apply (ensure_spd_square eps HS)|].
    split; [apply has_shape_tabulate|]. split.
    + rewrite (swapaxes_square (has_shape_tabulate n n _)).
      apply tabulate_ext. intros i j Hi Hj.
      rewrite item_tabulate by assumption.
      rewrite (Float64Symmetry.fadd_comm (np.item Sigma j i)),
              (Nat.eqb_sym j i).
      reflexivity.
    + intros i j Hi Hj. now rewrite item_tabulate by assumption.
  - split; vm_compute; reflexivity.
Qed.

Lemma ensure_spd_regularises_witness :
  exists B,
    math_utils.ensure_spd [[2; 1]; [0; 2]]%R (1 / 2)%R = Ok B /\
    square 2 B /\
    symmetric B /\
    (forall lam v, eigenpair 2 B lam v -> (1 / 2 <= lam)%R /\ (0 < lam)%R).
Proof.
  destruct (proj1 ensure_spd_regularises 2 [[2; 1]; [0; 2]]%R (1 / 2)%R)
    as (B & Hrun & Hsq & Hsym & _ & Heig).
  - split; [reflexivity|]. repeat constructor.
  - lra.
  - exists B. split; [assumption|]. split; [assumption|].
    split; [assumption|]. exact (Heig example_psd).
Defined.

(** In doubles eps is lost next to entries of size 1e11 already. *)
Example ensure_spd_absorbs_eps :
  math_utils.ensure_spd
    [[of_Z 100000000000; of_Z 100000000000];
     [of_Z 100000000000; of_Z 100000000000]] math_utils.default_eps
  = Ok [[of_Z 100000000000; of_Z 100000000000];
        [of_Z 100000000000; of_Z 100000000000]].
Proof. vm_compute. reflexivity. Qed.
End EnsureSpdModels.

(** ** compute_polarization: the sign of the result in doubles *)

Module Float64Sign.
Import SpecFloat Float64 epistemic_inertia.

(** The sign bit of a double is clear, or the double is NaN. *)
Definition sign_clear (x : float64) : Prop :=
  match x with
  | S754_nan => True
  | S754_zero s | S754_infinity s | S754_finite s _ _ => s = false
  end.

(** [x >= 0.0] holds, or [x] is NaN. *)
Definition nonnegative_or_nan (x : float64) : bool :=
  is_nan x || SFleb f0 x.

Lemma sign_clear_nonnegative x : sign_clear x -> nonnegative_or_nan x = true.
Proof. destruct x; simpl; intros; subst; reflexivity. Qed.

(** Rounding keeps the sign it is given. *)
Lemma round_aux_clear m e l :
  sign_clear (binary_round_aux prec emax false m e l).
Proof.
  unfold binary_round_aux.
  destruct (shr_fexp prec emax m e l) as [mrs' e'].
  destruct (shr_fexp prec emax _ e' loc_Exact) as [mrs'' e''].
  destruct (shr_m mrs''); [reflexivity| |exact I].
  destruct (Z.leb _ _); reflexivity.
Qed.

Lemma round_clear m e : sign_clear (binary_round prec emax false m e).
Proof.
  unfold binary_round. destruct (shl_align _ _ _). apply round_aux_clear.
Qed.

Lemma normalize_clear z e :
  (0 <= z)%Z -> sign_clear (binary_normalize prec emax z e false).
Proof.
  destruct z; simpl; intros Hz; [reflexivity|apply round_clear|lia].
Qed.

Lemma of_Z_clear z : (0 <= z)%Z -> sign_clear (of_Z z).
Proof. apply normalize_clear. Qed.

(** A square is never negative. *)
Lemma mul_self_clear (x : float64) : sign_clear (fmul x x).
Proof.
  destruct x as [s|s| |s m e]; cbn [fmul Float64Scalar SFmul].
  - destruct s; reflexivity.
  - destruct s; reflexivity.
  - exact I.
  - destruct s; apply round_aux_clear.
Qed.

Lemma add_clear (x y : float64) :
  sign_clear x -> sign_clear y -> sign_clear (fadd x y).
Proof.
  destruct x as [sx|sx| |sx mx ex], y as [sy|sy| |sy my ey]; simpl;
    intros Hx Hy; subst; try reflexivity; try exact I.
  apply normalize_clear. simpl. lia.
Qed.

Lemma div_clear (x y : float64) :
  sign_clear x -> sign_clear y -> sign_clear (fdiv x y).
Proof.
  destruct x as [sx|sx| |sx mx ex], y as [sy|sy| |sy my ey]; simpl;
    intros Hx Hy; subst; try reflexivity; try exact I.
  destruct (SFdiv_core_binary _ _ _ _ _ _) as [[mz ez] lz].
  apply round_aux_clear.
Qed.

Lemma sqrt_clear (x : float64) : sign_clear x -> sign_clear (fsqrt x).
Proof.
  destruct x as [sx|sx| |sx mx ex]; simpl; intros Hx; subst;
    try reflexivity; try exact I.
  destruct (SFsqrt_core_binary _ _ _ _) as [[mz ez] lz].
  apply round_aux_clear.
Qed.

Lemma fold_add_clear (l : list float64) (a : float64) :
  Forall sign_clear l -> sign_clear a -> sign_clear (fold_left fadd l a).
Proof.
  intros Hl. revert a. induction Hl as [|x l Hx _ IH]; intros a Ha; simpl.
  - exact Ha.
  - apply IH. now apply add_clear.
Qed.

Lemma sum_clear (l : list float64) :
  Forall sign_clear l -> sign_clear (np.sum l).
Proof. intros Hl. apply fold_add_clear; [assumption|reflexivity]. Qed.

Lemma norm_clear (v : list float64) : sign_clear (np.norm v).
Proof.
  unfold np.norm. apply sqrt_clear, sum_clear, Forall_forall.
  intros x Hx. apply in_map_iff in Hx as (y & <- & _). apply mul_self_clear.
Qed.

Lemma mean_clear (v : list float64) :
  Forall sign_clear v -> sign_clear (np.mean v).
Proof.
  intros Hv. unfold np.mean. apply div_clear.
  - now apply sum_clear.
  - apply of_Z_clear. lia.
Qed.

Lemma var_clear (v : list float64) : sign_clear (np.var v).
Proof.
  unfold np.var. apply mean_clear, Forall_forall.
  intros x Hx. apply in_map_iff in Hx as (y & <- & _). apply mul_self_clear.
Qed.

Lemma distances_clear (beliefs : list (list float64)) :
  Forall sign_clear (pairwise_distances beliefs).
Proof.
  unfold pairwise_distances. apply Forall_forall. intros x Hx.
  apply in_flat_map in Hx as (i & _ & Hx).
  apply in_map_iff in Hx as (j & <- & _). apply norm_clear.
Qed.

Lemma Ok_inj {A} (a b : A) : Ok a = Ok b -> a = b.
Proof. congruence. Qed.

(** Whatever compute_polarization returns on doubles has a clear sign
    bit or is NaN. *)
Lemma compute_polarization_clear (system : MultiAgentSystem.t float64) v :
  compute_polarization system = Ok v -> sign_clear v.
Proof.
  unfold compute_polarization.
  destruct (np.array _) as [beliefs|e]; cbn [bind]; [|discriminate].
  destruct (Nat.eqb _ 0); intros Hv; apply Ok_inj in Hv; subst v;
    [reflexivity|].
  apply div_clear; [apply var_clear|].
  apply add_clear; [apply mean_clear, distances_clear|].
  unfold ratio. apply div_clear; apply of_Z_clear; lia.
Qed.
End Float64Sign.

Module PolarizationModels.
Import PolarizationSpec Float64Sign SpecFloat Float64 epistemic_inertia.

(** All agents hold beliefs of one dimension, in any number model. *)
Definition same_dimension {F} `{Scalar F} (system : MultiAgentSystem.t F)
    : Prop :=
  exists K,
    Forall (fun agent => length (mean_over_leading_axes (Agent.mu_q agent)) = K)
           (MultiAgentSystem.agents system).

Lemma array_same_length {F} `{Scalar F} (rows : list (list F)) K :
  Forall (fun row => length row = K) rows -> np.array rows = Ok rows.
Proof.
  intros Hrows. unfold np.array.
  assert (E : forallb (fun r => Nat.eqb (length r) (np.ncols rows)) rows = true).
  { apply forallb_forall. intros r Hr. apply Nat.eqb_eq.
    rewrite Forall_forall in Hrows. rewrite (Hrows r Hr).
    destruct rows as [|r0 rest]; [easy|]. simpl.
    symmetry. apply Hrows. now left. }
  now rewrite E.
Qed.

Lemma compute_polarization_returns {F} `{Scalar F}
    (system : MultiAgentSystem.t F) :
  same_dimension system -> exists v, compute_polarization system = Ok v.
Proof.
  intros [K HK]. unfold compute_polarization.
  rewrite (@array_same_length F _ _ K).
  - cbn [bind]. destruct (Nat.eqb _ 0); eexists; reflexivity.
  - apply Forall_forall. intros row Hrow.
    apply in_map_iff in Hrow as (agent & <- & Hagent).
    rewrite Forall_forall in HK. now apply HK.
Qed.

(** C10 (amended).  For every system with fewer than two agents
    compute_polarization returns exactly 0.0, in every number model.  The
    value it returns is never negative: in exact real arithmetic it is
    >= 0, and in double precision it is >= 0 or NaN (it is NaN when a
    belief is NaN or when the distances overflow).  It does return a value
    whenever the agents' beliefs have one dimension. *)
Theorem compute_polarization_never_negative :
  (forall (F : Type) (scalar : Scalar F) (system : MultiAgentSystem.t F),
     MultiAgentSystem.n_agents system < 2 ->
     compute_polarization system = Ok f0) /\
  (forall system : MultiAgentSystem.t R,
     (forall v, compute_polarization system = Ok v -> (0 <= v)%R) /\
     (same_dimension system ->
      exists v, compute_polarization system = Ok v /\ (0 <= v)%R)) /\
  (forall system : MultiAgentSystem.t float64,
     (forall v, compute_polarization system = Ok v ->
                nonnegative_or_nan v = true) /\
     (same_dimension system ->
      exists v, compute_polarization system = Ok v /\
                nonnegative_or_nan v = true)).
Proof.
  split; [|split].
  - intros F scalar system. apply compute_polarization_few_agents.
  - intros system.
    pose proof (proj1 (proj2 (compute_polarization_spec system))) as Hnonneg.
    split; [exact Hnonneg|].
    intros Hdim. destruct (compute_polarization_returns Hdim) as [v Hv].
    exists v. split; [exact Hv|]. now apply Hnonneg.
  - intros system.
    assert (Hsign : forall v, compute_polarization system = Ok v ->
                              nonnegative_or_nan v = true).
    { intros v Hv. apply sign_clear_nonnegative.
      exact (compute_polarization_clear system Hv). }
    split; [exact Hsign|].
    intros Hdim. destruct (compute_polarization_returns Hdim) as [v Hv].
    exists v. split; [exact Hv|]. now apply Hsign.
Qed.

(** *** Doubles: beliefs far apart, and a NaN belief *)

Definition believer (i : Z) (mu : float64) : Agent.t float64 :=
  Agent.mk i (AgentConfig.mk 1 f0 f1 f0 f0) (Seeded i) 1 (Vec [mu]).

(** Two agents with the beliefs 1e200 and -1e200. *)
Definition far_apart : MultiAgentSystem.t float64 :=
  MultiAgentSystem.mk
    [believer 0 (of_Z (10 ^ 200)); believer 1 (of_Z (- 10 ^ 200))]
    (SystemConfig.mk f1 f0 f0 f1).

(** Two agents, one of them with a NaN belief. *)
Definition one_nan : MultiAgentSystem.t float64 :=
  MultiAgentSystem.mk [believer 0 nan; believer 1 f0]
                      (SystemConfig.mk f1 f0 f0 f1).

Definition one_double : MultiAgentSystem.t float64 :=
  MultiAgentSystem.mk [believer 0 (of_Z 3)] (SystemConfig.mk f1 f0 f0 f1).

Lemma compute_polarization_never_negative_witness :
  compute_polarization one_double = Ok f0 /\
  (exists v, compute_polarization two_apart = Ok v /\ (0 <= v)%R) /\
  (exists v, compute_polarization far_apart = Ok v /\
             nonnegative_or_nan v = true).
Proof.
  split; [|split].
  - apply (proj1 compute_polarization_never_negative). exact (le_n 2).
  - apply (proj2 (proj1 (proj2 compute_polarization_never_negative) two_apart)).
    exists 2. repeat constructor.
  - apply (proj2 (proj2 (proj2 compute_polarization_never_negative) far_apart)).
    exists 1. repeat constructor.
Defined.

(** C10 as stated fails: for two agents with the beliefs 1e200 and
    -1e200 the distance overflows to inf and the variance inf - inf is
    NaN; for two agents of which one holds a NaN belief the distance is
    NaN.  In both cases compute_polarization returns NaN, and NaN >= 0.0
    is false. *)
Lemma compute_polarization_returns_nan :
  MultiAgentSystem.n_agents far_apart = 2 /\
  compute_polarization far_apart = Ok nan /\
  compute_polarization one_nan = Ok nan /\
  SFleb f0 nan = false.
Proof. repeat split; vm_compute; reflexivity. Qed.
End PolarizationModels.
